(** * Ferrovac STM stepper-motor control over a LabJack U3

    A shallow embedding of [stepper_motor_control.py]: the wiring tables and
    [compress_dict], the classes [StepperMotorControl] and
    [AdvancedStepperMotorControl], and the properties of the pulse sequencer,
    the mode read-back, the turn-around sequences and the step conversion.

    Python objects are modelled as follows.
    - A [dict] is an association list in insertion order whose keys are
      pairwise distinct ([wf_dict]); lookups, membership and item assignment
      are written over the list.
    - Exceptions are values of [exn]; a computation that may raise returns a
      [result].  Methods that talk to the U3 run in the monad [dev], which
      threads the device and keeps every effect that happened before an
      exception was raised.
    - Python floats are IEEE 754 binary64 numbers ([spec_float] with
      precision 53 and maximal exponent 1024).  Sleep durations are only
      carried to [time.sleep] and halved; they are kept as exact rationals. *)

From Stdlib Require Import ZArith List String Ascii Bool Lia QArith Qround.
From Stdlib Require Import DecimalString.
From Stdlib Require Import Floats.SpecFloat.
Import ListNotations.

Local Open Scope string_scope.
Local Open Scope Z_scope.

(* ====================================================================== *)
(** ** Python values, exceptions and results *)
(* ====================================================================== *)

(** Hashable values that occur as dictionary keys and values in the wiring
    tables: [None], integers and strings. *)
Inductive pyval :=
| VNone
| VInt (z : Z)
| VStr (s : string).

(** Objects that can be handed to a function as an argument. *)
Inductive pyobj :=
| PVal (v : pyval)
| PList (l : list pyval)
| PDict (d : list (pyval * pyval)).

Inductive exn :=
| ValueError (msg : string)
| KeyError (arg : pyval)
| TypeError (msg : string)
| IndexError (msg : string)
| OverflowError (msg : string)
| StepperMotorException (msg : string)
| AdvancedStepperMotorException (msg : string).

Inductive result (A : Type) :=
| Ok (a : A)
| Raise (e : exn).

Arguments Ok {A} a.
Arguments Raise {A} e.

Definition rbind {A B} (r : result A) (f : A -> result B) : result B :=
  match r with
  | Ok a => f a
  | Raise e => Raise e
  end.

Declare Scope res_scope.
Delimit Scope res_scope with res.
Notation "x <- c ;; k" := (rbind c (fun x => k))
  (at level 61, c at next level, right associativity) : res_scope.

Fixpoint mapM {A B} (f : A -> result B) (l : list A) : result (list B) :=
  match l with
  | [] => Ok []
  | a :: l' => (b <- f a ;; bs <- mapM f l' ;; Ok (b :: bs))%res
  end.

Definition pyval_eqb (a b : pyval) : bool :=
  match a, b with
  | VNone, VNone => true
  | VInt x, VInt y => Z.eqb x y
  | VStr s, VStr t => String.eqb s t
  | _, _ => false
  end.

(** What Python needs of a dictionary key: equality, and the object that a
    [KeyError] carries when the key is missing. *)
Class Hashable (K : Type) := {
  key_eqb : K -> K -> bool;
  key_eqb_spec : forall a b, reflect (a = b) (key_eqb a b);
  key_py : K -> pyval
}.

#[export] Instance Hashable_pyval : Hashable pyval.
Proof.
  refine {| key_eqb := pyval_eqb; key_py := fun v => v |}.
  intros [|x|s] [|y|t]; simpl; try (constructor; congruence).
  - destruct (Z.eqb_spec x y); constructor; congruence.
  - destruct (String.eqb_spec s t); constructor; congruence.
Defined.

#[export] Instance Hashable_string : Hashable string :=
  {| key_eqb := String.eqb; key_eqb_spec := String.eqb_spec; key_py := VStr |}.

(* ====================================================================== *)
(** ** [str] and [repr] *)
(* ====================================================================== *)

Definition str_of_Z (z : Z) : string := NilZero.string_of_int (Z.to_int z).

(** [repr] of a string without quotes, backslashes or control characters
    (all the strings of the tables are of this kind). *)
Definition repr_str (s : string) : string := "'" ++ s ++ "'".

Definition py_repr (v : pyval) : string :=
  match v with
  | VNone => "None"
  | VInt z => str_of_Z z
  | VStr s => repr_str s
  end.

Fixpoint join (sep : string) (l : list string) : string :=
  match l with
  | [] => ""
  | [x] => x
  | x :: l' => x ++ sep ++ join sep l'
  end.

Definition repr_list (l : list string) : string := "[" ++ join ", " l ++ "]".

(** [str(arg)], which is what ['{}'.format(arg)] inserts. *)
Definition py_str (o : pyobj) : string :=
  match o with
  | PVal (VStr s) => s
  | PVal v => py_repr v
  | PList l => repr_list (map py_repr l)
  | PDict d =>
      "{" ++ join ", " (map (fun kv => py_repr (fst kv) ++ ": " ++ py_repr (snd kv)) d) ++ "}"
  end.

(* ====================================================================== *)
(** ** Dictionaries *)
(* ====================================================================== *)

Definition dict (K V : Type) := list (K * V).

Section Dict.
Context {K V : Type} `{Hashable K}.

Definition dict_keys (d : dict K V) : list K := map fst d.
Definition dict_values (d : dict K V) : list V := map snd d.
Definition dict_items (d : dict K V) : list (K * V) := d.

(** Representation invariant of a Python dict. *)
Definition wf_dict (d : dict K V) : Prop := NoDup (dict_keys d).

Fixpoint dict_find (d : dict K V) (k : K) : option V :=
  match d with
  | [] => None
  | (k', v) :: d' => if key_eqb k k' then Some v else dict_find d' k
  end.

(** [k in d.keys()] *)
Definition dict_contains (d : dict K V) (k : K) : bool :=
  match dict_find d k with
  | Some _ => true
  | None => false
  end.

(** [d[k]] *)
Definition dict_getitem (d : dict K V) (k : K) : result V :=
  match dict_find d k with
  | Some v => Ok v
  | None => Raise (KeyError (key_py k))
  end.

(** [d[k] = v]: an existing key keeps its position, a new one is appended. *)
Fixpoint dict_setitem (d : dict K V) (k : K) (v : V) : dict K V :=
  match d with
  | [] => [(k, v)]
  | (k', v') :: d' =>
      if key_eqb k k' then (k', v) :: d' else (k', v') :: dict_setitem d' k v
  end.

(** The dict built by a comprehension that yields [items] in order. *)
Definition dict_of_items (items : list (K * V)) : dict K V :=
  fold_left (fun acc kv => dict_setitem acc (fst kv) (snd kv)) items [].
End Dict.

Definition pydict := dict pyval pyval.

(* ====================================================================== *)
(** ** Pin configuration *)
(* ====================================================================== *)

(** maps U3 terminal label to internal terminal numbering *)
Definition U3_PIN_CONFIG : pydict :=
  [ (VStr "FIO0", VInt 0); (VStr "FIO1", VInt 1); (VStr "FIO2", VInt 2);
    (VStr "FIO3", VInt 3); (VStr "FIO4", VInt 4); (VStr "FIO5", VInt 5);
    (VStr "FIO6", VInt 6); (VStr "FIO7", VInt 7); (VStr "GND", VNone) ].

(** maps DSUB9 cable color to U3 terminal label *)
Definition U3_WIRING : pydict :=
  [ (VStr "brown", VStr "FIO0"); (VStr "red", VStr "FIO1");
    (VStr "orange", VStr "FIO2"); (VStr "blue", VStr "FIO5");
    (VStr "violet", VStr "FIO6"); (VStr "green", VStr "FIO7");
    (VStr "black", VStr "GND"); (VStr "yellow", VStr "n.c.") ].

(** maps DSUB9 (+ converter plug) pin number to DSUB9 cable color *)
Definition DSUB9_PIN_CONFIG : pydict :=
  [ (VInt 1, VStr "black"); (VInt 2, VStr "brown"); (VInt 3, VStr "red");
    (VInt 4, VStr "orange"); (VInt 5, VStr "n.c."); (VInt 6, VStr "yellow");
    (VInt 7, VStr "blue"); (VInt 8, VStr "violet"); (VInt 9, VStr "green") ].

(** maps controller function to DSUB9-output-plug pin number *)
Definition CONTROLLER_PIN_CONFIG : pydict :=
  [ (VStr "GND", VInt 1); (VStr "bit0", VInt 2); (VStr "bit1", VInt 3);
    (VStr "bit2", VInt 4); (VStr "LED_burst", VInt 7);
    (VStr "LED_single", VInt 8); (VStr "LED_cont", VInt 9) ].

(** The first loop of [compress_dict]: every argument must be a dict.  The
    dicts are handed on to the rest of the function. *)
Fixpoint check_dicts (args : list pyobj) : result (list pydict) :=
  match args with
  | [] => Ok []
  | PDict d :: rest => (ds <- check_dicts rest ;; Ok (d :: ds))%res
  | arg :: _ =>
      Raise (ValueError
               ("input argument " ++ py_str arg ++ " not valid. Must be of type dict"))
  end.

Definition KEYS_NOT_CONSISTENT : string :=
  "Values and keys of subsequent dictionaries are not consistent.".

(** [{k: tmp_[v] for (k,v) in dct.items()}] *)
Definition compose_step (dct tmp_ : pydict) : result pydict :=
  (items <- mapM (fun kv => (x <- dict_getitem tmp_ (snd kv) ;; Ok (fst kv, x))%res)
                 (dict_items dct) ;;
   Ok (dict_of_items items))%res.

(** The [while len(dct_lst) > 0] loop; each round pops the head of
    [dct_lst]. *)
Fixpoint compress_loop (dct : pydict) (dct_lst : list pydict) : result pydict :=
  match dct_lst with
  | [] => Ok dct
  | tmp_ :: dct_lst' =>
      if negb (forallb (fun val => dict_contains tmp_ val) (dict_values dct))
      then Raise (KeyError (VStr KEYS_NOT_CONSISTENT))
      else (dct' <- compose_step dct tmp_ ;; compress_loop dct' dct_lst')%res
  end.

Definition compress_dict (args : list pyobj) : result pydict :=
  (dct_lst <- check_dicts args ;;
   match dct_lst with
   | [] => Raise (IndexError "pop from empty list")
   | dct :: dct_lst' => compress_loop dct dct_lst'
   end)%res.

Definition compile_wiring_dict : result pydict :=
  compress_dict [ PDict CONTROLLER_PIN_CONFIG; PDict DSUB9_PIN_CONFIG;
                  PDict U3_WIRING; PDict U3_PIN_CONFIG ].


(* ====================================================================== *)
(** ** [compress_dict] on references *)
(* ====================================================================== *)

(** Python passes dicts by reference.  To state that [compress_dict] leaves
    its arguments alone, the same function is given once more over a heap of
    objects: arguments and result are addresses, reading an argument is a
    lookup in the heap, and the only heap effect in the source is the dict
    comprehension, which allocates a fresh dict.  The list [dct_lst] is the
    fresh copy made by [list(args)]; it is local and is consumed by [pop]. *)
Definition heap := list pyobj.

Definition deref (h : heap) (r : nat) : option pyobj := nth_error h r.

Definition alloc (h : heap) (o : pyobj) : nat * heap := (List.length h, (h ++ [o])%list).

(** An address outside the heap does not occur in Python; the functions
    below answer it with this error so that they are total. *)
Definition DANGLING : exn := TypeError "invalid reference".

Fixpoint check_dicts_ref (h : heap) (args : list nat) : result unit :=
  match args with
  | [] => Ok tt
  | r :: rest =>
      match deref h r with
      | Some (PDict _) => check_dicts_ref h rest
      | Some arg =>
          Raise (ValueError
                   ("input argument " ++ py_str arg ++ " not valid. Must be of type dict"))
      | None => Raise DANGLING
      end
  end.

Fixpoint compress_loop_ref (dct : nat) (dct_lst : list nat) (h : heap)
  : result nat * heap :=
  match dct_lst with
  | [] => (Ok dct, h)
  | tmp_ :: dct_lst' =>
      match deref h dct, deref h tmp_ with
      | Some (PDict d), Some (PDict t) =>
          if negb (forallb (fun val => dict_contains t val) (dict_values d))
          then (Raise (KeyError (VStr KEYS_NOT_CONSISTENT)), h)
          else
            match compose_step d t with
            | Ok d' =>
                let (dct', h') := alloc h (PDict d') in
                compress_loop_ref dct' dct_lst' h'
            | Raise e => (Raise e, h)
            end
      | _, _ => (Raise DANGLING, h)
      end
  end.

Definition compress_dict_ref (args : list nat) (h : heap) : result nat * heap :=
  match check_dicts_ref h args with
  | Raise e => (Raise e, h)
  | Ok _ =>
      match args with
      | [] => (Raise (IndexError "pop from empty list"), h)
      | dct :: dct_lst => compress_loop_ref dct dct_lst h
      end
  end.

(* ====================================================================== *)
(** ** The LabJack U3 and the device monad *)
(* ====================================================================== *)

(** [u3.BitStateWrite(IONumber, State)] *)
Record BitStateWrite := { IONumber : pyval; State : Z }.

(** What the program does to the outside world: a batched digital write
    (one [d.getFeedback] call with all the commands) or a blocking [time.sleep]. *)
Inductive event :=
| Feedback (command_lst : list BitStateWrite)
| Sleep (secs : Q).

(** The device: the level that [getDIOState] finds on each line (driven by
    the piezo controller) and the history of what was sent to it. *)
Record U3 := { dio : Z -> Z; log : list event }.

Definition emit (ev : event) (u : U3) : U3 :=
  {| dio := dio u; log := log u ++ [ev] |}.

(** The state of an output line: the last state written to it, if any. *)
Fixpoint last_written (cmds : list BitStateWrite) (io : Z) : option Z :=
  match cmds with
  | [] => None
  | c :: cmds' =>
      match last_written cmds' io with
      | Some st => Some st
      | None => if pyval_eqb (IONumber c) (VInt io) then Some (State c) else None
      end
  end.

Definition writes_of (ev : event) : list BitStateWrite :=
  match ev with
  | Feedback cmds => cmds
  | Sleep _ => []
  end.

Definition output_state (u : U3) (io : Z) : option Z :=
  last_written (flat_map writes_of (log u)) io.

Definition dev (A : Type) := U3 -> result A * U3.

Definition dret {A} (a : A) : dev A := fun u => (Ok a, u).
Definition draise {A} (e : exn) : dev A := fun u => (Raise e, u).
Definition dbind {A B} (c : dev A) (f : A -> dev B) : dev B :=
  fun u =>
    match c u with
    | (Ok a, u') => f a u'
    | (Raise e, u') => (Raise e, u')
    end.
Definition lift {A} (r : result A) : dev A := fun u => (r, u).

Declare Scope dev_scope.
Delimit Scope dev_scope with dev.
Notation "x <- c ;; k" := (dbind c (fun x => k))
  (at level 61, c at next level, right associativity) : dev_scope.
Notation "c ;; k" := (dbind c (fun _ => k))
  (at level 61, right associativity) : dev_scope.

(** [for i in range(n): body] *)
Fixpoint for_range (n : nat) (body : dev unit) : dev unit :=
  match n with
  | O => dret tt
  | S n' => (body ;; for_range n' body)%dev
  end.

(** [d.getDIOState(io_num)] *)
Definition getDIOState (io_num : pyval) : dev Z :=
  fun u =>
    match io_num with
    | VInt io => (Ok (dio u io), u)
    | _ => (Raise (TypeError "an integer is required"), u)
    end.

(** [d.getFeedback] applied to the unpacked [command_lst] *)
Definition getFeedback (command_lst : list BitStateWrite) : dev unit :=
  fun u => (Ok tt, emit (Feedback command_lst) u).

Definition SLEEP_NEGATIVE : exn := ValueError "sleep length must be non-negative".

(** [time.sleep(secs)], by its contract: a negative length is refused, any
    other length blocks for that time. *)
Definition time_sleep (secs : Q) : dev unit :=
  fun u =>
    if Qle_bool 0 secs then (Ok tt, emit (Sleep secs) u)
    else (Raise SLEEP_NEGATIVE, u).

(* ====================================================================== *)
(** ** Builtins used on arguments *)
(* ====================================================================== *)

Definition is_space (c : ascii) : bool :=
  let n := nat_of_ascii c in
  (Nat.eqb n 32 || (Nat.leb 9 n && Nat.leb n 13) || (Nat.leb 28 n && Nat.leb n 31))%bool.

Definition digit_of (c : ascii) : option Z :=
  let n := nat_of_ascii c in
  if (Nat.leb 48 n && Nat.leb n 57)%bool then Some (Z.of_nat (n - 48)) else None.

Fixpoint lstrip (s : string) : string :=
  match s with
  | String c s' => if is_space c then lstrip s' else s
  | EmptyString => s
  end.

Fixpoint rev_string (s acc : string) : string :=
  match s with
  | EmptyString => acc
  | String c s' => rev_string s' (String c acc)
  end.

Definition strip (s : string) : string :=
  rev_string (lstrip (rev_string (lstrip s) "")) "".

(** Decimal digits, where single underscores may separate digits. *)
Fixpoint parse_digits (s : string) (acc : Z) (after_digit : bool) : option Z :=
  match s with
  | EmptyString => if after_digit then Some acc else None
  | String c s' =>
      match digit_of c with
      | Some d => parse_digits s' (10 * acc + d) true
      | None =>
          if (Ascii.eqb c "_" && after_digit)%bool then parse_digits s' acc false
          else None
      end
  end.

(** [int(s)] for a string of ASCII characters, base 10. *)
Definition parse_int (s : string) : option Z :=
  match strip s with
  | String "-" s' => option_map Z.opp (parse_digits s' 0 false)
  | String "+" s' => parse_digits s' 0 false
  | s' => parse_digits s' 0 false
  end.

Definition type_name (o : pyobj) : string :=
  match o with
  | PVal VNone => "NoneType"
  | PVal (VInt _) => "int"
  | PVal (VStr _) => "str"
  | PList _ => "list"
  | PDict _ => "dict"
  end.

(** [int(x)] *)
Definition py_int (x : pyobj) : result Z :=
  match x with
  | PVal (VInt z) => Ok z
  | PVal (VStr s) =>
      match parse_int s with
      | Some z => Ok z
      | None =>
          Raise (ValueError ("invalid literal for int() with base 10: " ++ repr_str s))
      end
  | _ =>
      Raise (TypeError
               ("int() argument must be a string, a bytes-like object or a real number, not "
                  ++ repr_str (type_name x)))
  end.

(** [s.replace(old, new)] for a non-empty [old]; [skip] counts the characters
    of a match that are still to be dropped. *)
Fixpoint replace_from (old new s : string) (skip : nat) : string :=
  match s with
  | EmptyString => EmptyString
  | String c s' =>
      match skip with
      | S k => replace_from old new s' k
      | O =>
          if String.prefix old s
          then new ++ replace_from old new s' (String.length old - 1)
          else String c (replace_from old new s' 0)
      end
  end.

Definition str_replace (s old new : string) : string := replace_from old new s 0.


(* ====================================================================== *)
(** ** class StepperMotorControl *)
(* ====================================================================== *)

Definition MOVEMENT_SETTINGS : list string := ["LED_cont"; "LED_burst"; "LED_single"].

Definition MOTOR_DIRECTIONS : dict string (list Z) :=
  [ ("left",  [1; 0; 1]);
    ("right", [1; 1; 0]);
    ("back",  [0; 1; 0]);
    ("down",  [1; 0; 0]);
    ("fwd",   [0; 0; 1]);
    ("up",    [0; 1; 1]);
    ("stop",  [1; 1; 1]) ].

Definition BIT_LIST : list string := ["bit0"; "bit1"; "bit2"].

(** 0.15 *)
Definition BURST_PULSE_DURATION : Q := 15 # 100.

(** The attributes that [__init__] sets, apart from the device handle, which
    the monad [dev] carries. *)
Record StepperMotorControl := {
  pin_dct : pydict;
  mot_dir : dict string (dict string Z)
}.

Definition _compile_motor_directions_dict : dict string (dict string Z) :=
  let bit_lst := BIT_LIST in
  dict_of_items
    (map (fun kv => (fst kv, dict_of_items (combine bit_lst (snd kv))))
         (dict_items MOTOR_DIRECTIONS)).

Definition StepperMotorControl_init : result StepperMotorControl :=
  (pin <- compile_wiring_dict ;;
   Ok {| pin_dct := pin; mot_dir := _compile_motor_directions_dict |})%res.

(** [str(d.keys())] for string keys *)
Definition str_dict_keys (keys : list string) : string :=
  "dict_keys(" ++ repr_list (map repr_str keys) ++ ")".

Section Methods.
Variable self : StepperMotorControl.

Definition _check_motor_direction (direction : string) : result unit :=
  let msg :=
    "Passed direction " ++ direction ++ " is not valid. Try instead: "
      ++ str_dict_keys (dict_keys (mot_dir self)) in
  if negb (dict_contains (mot_dir self) direction)
  then Raise (StepperMotorException msg)
  else Ok tt.

Definition invalid_step_msg (n_steps : pyobj) : string :=
  "given n_steps value " ++ py_str n_steps ++ " is not a valid step number".

Definition _convert_n_steps_to_int (n_steps : pyobj) : result Z :=
  match py_int n_steps with
  | Raise (ValueError _) => Raise (StepperMotorException (invalid_step_msg n_steps))
  | r => r
  end.

Definition _get_dio_state (io_num : pyval) : dev Z := getDIOState io_num.

Fixpoint get_motor_setting_loop (movement_setting : list string) (setting : string)
  : dev string :=
  match movement_setting with
  | [] => dret setting
  | s :: rest =>
      (io_num <- lift (dict_getitem (pin_dct self) (VStr s)) ;;
       state <- _get_dio_state io_num ;;
       get_motor_setting_loop rest
         (if Z.eqb state 0 then str_replace s "LED_" "" else setting))%dev
  end.

Definition get_motor_setting : dev string :=
  get_motor_setting_loop MOVEMENT_SETTINGS "auto".

Definition _walk (direction : string) : dev unit :=
  (lift (_check_motor_direction direction) ;;
   bit_pattern <- lift (dict_getitem (mot_dir self) direction) ;;
   command_lst <-
     lift (mapM (fun bs =>
                   (io_num <- dict_getitem (pin_dct self) (VStr (fst bs)) ;;
                    Ok {| IONumber := io_num; State := snd bs |})%res)
                (dict_items bit_pattern)) ;;
   getFeedback command_lst)%dev.

(** The default values of the keyword arguments ([duration=0.1] here,
    [duration_per_step=0.01] in [walk_steps]) are left to the caller. *)
Definition walk (direction : string) (duration : Q) : dev unit :=
  (_walk "stop" ;;
   _walk direction ;;
   time_sleep (duration * (1 # 2)) ;;
   _walk "stop" ;;
   time_sleep (duration * (1 # 2)))%dev.

Definition NEED_SINGLE : string := "Need to switch motor control setting to single. ".
Definition NEED_BURST : string := "Need to switch motor control setting to burst. ".

Definition walk_steps (direction : string) (n_steps : pyobj) (duration_per_step : Q)
  : dev unit :=
  (n_steps <- lift (_convert_n_steps_to_int n_steps) ;;
   setting <- get_motor_setting ;;
   if negb (String.eqb setting "single")
   then draise (StepperMotorException NEED_SINGLE)
   else for_range (Z.to_nat n_steps)
          (walk direction duration_per_step ;; time_sleep (1 # 100)))%dev.

Definition walk_bursts (direction : string) (n_steps : pyobj) : dev unit :=
  (n_steps <- lift (_convert_n_steps_to_int n_steps) ;;
   setting <- get_motor_setting ;;
   if negb (String.eqb setting "burst")
   then draise (StepperMotorException NEED_BURST)
   else for_range (Z.to_nat n_steps)
          (walk direction BURST_PULSE_DURATION ;; time_sleep (1 # 100)))%dev.
End Methods.

(* ====================================================================== *)
(** ** class AdvancedStepperMotorControl *)
(* ====================================================================== *)

Definition TURN_AROUND_STEP_SEQUENCE : dict string (list (string * Z)) :=
  [ ("fwd_to_back", [("fwd", 100); ("back", 55)]);
    ("back_to_fwd", [("back", 50); ("fwd", 110)]) ].

Definition b64_prec : Z := 53.
Definition b64_emax : Z := 1024.

(** A float literal with an integral value, such as [87.] *)
Definition float_lit (z : Z) : spec_float := binary_normalize b64_prec b64_emax z 0 false.

(** Division of two floats, for a non-zero divisor. *)
Definition float_div (x y : spec_float) : spec_float := SFdiv b64_prec b64_emax x y.

Definition RATIO_RIGHT_TO_LEFT : spec_float := float_div (float_lit 87) (float_lit 78).
Definition RATIO_BACK_TO_FWD : spec_float := float_div (float_lit 450) (float_lit 205).

Definition CONV_TO : dict string spec_float :=
  [ ("left",  RATIO_RIGHT_TO_LEFT);
    ("right", float_div (float_lit 1) RATIO_RIGHT_TO_LEFT);
    ("fwd",   RATIO_BACK_TO_FWD);
    ("back",  float_div (float_lit 1) RATIO_RIGHT_TO_LEFT) ].

Definition OPPOSITE_DIR : dict string string :=
  [ ("fwd", "back"); ("back", "fwd"); ("right", "left"); ("left", "right");
    ("up", "down"); ("down", "up") ].

Definition TURN_AROUND_FROM : dict string string :=
  [ ("left", "left_to_right"); ("right", "right_to_left");
    ("fwd", "fwd_to_back"); ("back", "back_to_fwd") ].

Record AdvancedStepperMotorControl := {
  base :> StepperMotorControl;
  turn_dct : dict string (list (string * Z))
}.

Definition AdvancedStepperMotorControl_init : result AdvancedStepperMotorControl :=
  (b <- StepperMotorControl_init ;;
   Ok {| base := b; turn_dct := TURN_AROUND_STEP_SEQUENCE |})%res.

(** [for x in l: body(x)] *)
Fixpoint for_each {A} (l : list A) (body : A -> dev unit) : dev unit :=
  match l with
  | [] => dret tt
  | x :: l' => (body x ;; for_each l' body)%dev
  end.

(** [int * float]: the integer is converted to the nearest float first. *)
Definition float_of_int (z : Z) : result spec_float :=
  match binary_normalize b64_prec b64_emax z 0 false with
  | S754_infinity _ => Raise (OverflowError "int too large to convert to float")
  | x => Ok x
  end.

Definition int_mul_float (n : Z) (y : spec_float) : result spec_float :=
  (x <- float_of_int n ;; Ok (SFmul b64_prec b64_emax x y))%res.

(** [int(x)] for a float: truncation towards zero. *)
Definition int_of_float (x : spec_float) : result Z :=
  match x with
  | S754_zero _ => Ok 0
  | S754_finite s m e => Ok (cond_Zopp s (Z.shiftl (Zpos m) e))
  | S754_infinity _ => Raise (OverflowError "cannot convert float infinity to integer")
  | S754_nan => Raise (ValueError "cannot convert float NaN to integer")
  end.

Section AdvancedMethods.
Variable self : AdvancedStepperMotorControl.

Definition _check_direction_change (dir_change : string) : result unit :=
  let msg :=
    "Passed direction chane " ++ dir_change ++ " is not valid. Try instead: "
      ++ str_dict_keys (dict_keys (turn_dct self)) in
  if negb (dict_contains (turn_dct self) dir_change)
  then Raise (AdvancedStepperMotorException msg)
  else Ok tt.

Definition turn_around (dir_change : string) : dev unit :=
  (lift (_check_direction_change dir_change) ;;
   match dict_find (turn_dct self) dir_change with
   | Some sequ =>
       for_each sequ
         (fun step_sequ => walk_bursts self (fst step_sequ) (PVal (VInt (snd step_sequ))))
   | None => draise (TypeError "'NoneType' object is not iterable")
   end)%dev.

Definition turn_around_from (direction : string) : dev unit :=
  (lift (_check_motor_direction self direction) ;;
   dir_change <- lift (dict_getitem TURN_AROUND_FROM direction) ;;
   turn_around dir_change)%dev.

Definition conv_one_step (conv_to : string) (step_nr : Z) : result Z :=
  let err_msg :=
    "conv_to: " ++ conv_to ++ " is not a valid argument. Try instead: "
      ++ repr_list (map repr_str (dict_keys CONV_TO)) in
  if negb (dict_contains CONV_TO conv_to)
  then Raise (ValueError err_msg)
  else (ratio <- dict_getitem CONV_TO conv_to ;;
        x <- int_mul_float step_nr ratio ;;
        int_of_float x)%res.

End AdvancedMethods.


(** The controller objects that the constructors build. *)
Definition sm : StepperMotorControl :=
  {| pin_dct :=
       [ (VStr "GND", VNone); (VStr "bit0", VInt 0); (VStr "bit1", VInt 1);
         (VStr "bit2", VInt 2); (VStr "LED_burst", VInt 5);
         (VStr "LED_single", VInt 6); (VStr "LED_cont", VInt 7) ];
     mot_dir := _compile_motor_directions_dict |}.

Definition asm : AdvancedStepperMotorControl :=
  {| base := sm; turn_dct := TURN_AROUND_STEP_SEQUENCE |}.

(* ====================================================================== *)
(** ** module de_power_supply *)
(* ====================================================================== *)

(** The Delta Elektronika power supply behind two analog inputs and one
    analog output of a LabJack.  The LabJack handle [d] is modelled by the
    voltage it would read on each analog input and by the list of requests
    sent to it; methods run in the monad [io], which threads the handle. *)
Module de_power_supply.

(** Python numbers: [int] and [float]. *)
Inductive pynum :=
| NInt (z : Z)
| NFloat (x : spec_float).

(** The exceptions met in this module: those of [exn], and
    [ZeroDivisionError]. *)
Inductive exc :=
| Std (e : exn)
| ZeroDivisionError (msg : string).

Inductive outcome (A : Type) :=
| Return (a : A)
| Throw (e : exc).

Arguments Return {A} a.
Arguments Throw {A} e.

Definition of_result {A} (r : result A) : outcome A :=
  match r with
  | Ok a => Return a
  | Raise e => Throw (Std e)
  end.

Definition obind {A B} (r : outcome A) (f : A -> outcome B) : outcome B :=
  match r with
  | Return a => f a
  | Throw e => Throw e
  end.

Declare Scope out_scope.
Delimit Scope out_scope with out.
Notation "x <- c ;; k" := (obind c (fun x => k))
  (at level 61, c at next level, right associativity) : out_scope.

(** maps U3 terminal label to internal terminal numbering *)
Definition U3_PIN_CONFIG : dict string Z :=
  [ ("FIO0", 0); ("FIO1", 1); ("FIO2", 2); ("FIO3", 3);
    ("FIO4", 4); ("FIO5", 5); ("FIO6", 6); ("FIO7", 7) ].

Definition U3_DAC_REGISTER : dict string Z :=
  [ ("DAC0", 5000); ("DAC1", 5002) ].

Definition POWER_SUPPLY_WIRING : dict string string :=
  [ ("V_monitor", "FIO0"); ("I_monitor", "FIO1"); ("I_program", "DAC0") ].

(** What is asked of the LabJack: [d.configIO(FIOAnalog=, EIOAnalog=)],
    [d.getAIN(posChannel, negChannel=)] and [d.writeRegister(reg, val)]. *)
Inductive request :=
| ConfigIO (FIOAnalog EIOAnalog : Z)
| GetAIN (posChannel negChannel : Z)
| WriteRegister (reg : Z) (val : pynum).

Record handle := { ain : Z -> spec_float; requests : list request }.

Definition ask (q : request) (d : handle) : handle :=
  {| ain := ain d; requests := (requests d ++ [q])%list |}.

Definition io (A : Type) := handle -> outcome A * handle.

Definition ibind {A B} (c : io A) (f : A -> io B) : io B :=
  fun d =>
    match c d with
    | (Return a, d') => f a d'
    | (Throw e, d') => (Throw e, d')
    end.
Definition ilift {A} (r : outcome A) : io A := fun d => (r, d).

Declare Scope io_scope.
Delimit Scope io_scope with io.
Notation "x <- c ;; k" := (ibind c (fun x => k))
  (at level 61, c at next level, right associativity) : io_scope.
Notation "c ;; k" := (ibind c (fun _ => k))
  (at level 61, right associativity) : io_scope.


Definition getAIN (posChannel negChannel : Z) : io spec_float :=
  fun d => (Return (ain d posChannel), ask (GetAIN posChannel negChannel) d).

Definition writeRegister (reg : Z) (val : pynum) : io unit :=
  fun d => (Return tt, ask (WriteRegister reg val) d).

(** *** Arithmetic on [int] and [float] *)

Definition to_float (n : pynum) : outcome spec_float :=
  match n with
  | NInt z => of_result (float_of_int z)
  | NFloat x => Return x
  end.

Definition is_zero (x : spec_float) : bool :=
  match x with
  | S754_zero _ => true
  | _ => false
  end.

(** [a / b] for two integers: the quotient rounded once to the nearest
    float. *)
Definition int_truediv (a b : Z) : outcome spec_float :=
  match b with
  | Z0 => Throw (ZeroDivisionError "division by zero")
  | _ =>
      match a with
      | Z0 => Return (S754_zero (b <? 0))
      | _ =>
          let '(mz, ez, lz) :=
            SFdiv_core_binary b64_prec b64_emax (Z.abs a) 0 (Z.abs b) 0 in
          match binary_round_aux b64_prec b64_emax (xorb (a <? 0) (b <? 0)) mz ez lz with
          | S754_infinity _ =>
              Throw (Std (OverflowError "integer division result too large for a float"))
          | q => Return q
          end
      end
  end.

(** [a / b] *)
Definition py_truediv (a b : pynum) : outcome spec_float :=
  match a, b with
  | NInt x, NInt y => int_truediv x y
  | _, _ =>
      (x <- to_float a ;;
       y <- to_float b ;;
       if is_zero y then Throw (ZeroDivisionError "float division by zero")
       else Return (SFdiv b64_prec b64_emax x y))%out
  end.

(** [a * b] *)
Definition py_mul (a b : pynum) : outcome pynum :=
  match a, b with
  | NInt x, NInt y => Return (NInt (x * y))
  | _, _ =>
      (x <- to_float a ;;
       y <- to_float b ;;
       Return (NFloat (SFmul b64_prec b64_emax x y)))%out
  end.

(** [a + b] *)
Definition py_add (a b : pynum) : outcome pynum :=
  match a, b with
  | NInt x, NInt y => Return (NInt (x + y))
  | _, _ =>
      (x <- to_float a ;;
       y <- to_float b ;;
       Return (NFloat (SFadd b64_prec b64_emax x y)))%out
  end.

(** *** class DEPowerSupply and class ES03010 *)

(** The class attributes. *)
Record attrs := {
  V_READOUT_MAX : pynum;
  V_OUTPUT_MAX : pynum;
  I_OUTPUT_MAX : pynum
}.

Definition DEPowerSupply : attrs :=
  {| V_READOUT_MAX := NInt 1; V_OUTPUT_MAX := NInt 1; I_OUTPUT_MAX := NInt 1 |}.

Definition ES03010 : attrs :=
  {| V_READOUT_MAX := NFloat (float_lit 5); V_OUTPUT_MAX := NInt 30;
     I_OUTPUT_MAX := NInt 10 |}.

(** The attributes that [__init__] sets, with the class of the object. *)
Record instance := {
  cls : attrs;
  u3_pin_config : dict string Z;
  u3_dac_reg : dict string Z;
  pw_wiring : dict string string
}.

(** The literal [0.1], default of [correction_factor]. *)
Definition CORRECTION_FACTOR : pynum :=
  NFloat (float_div (float_lit 1) (float_lit 10)).





Definition convert_to_readout_voltage (c : attrs) (current correction_factor : pynum)
  : outcome pynum :=
  (t <- py_truediv current (I_OUTPUT_MAX c) ;;
   t' <- py_mul (NFloat t) (V_READOUT_MAX c) ;;
   s <- py_add (NInt 1) correction_factor ;;
   py_mul t' s)%out.

Section Methods.
Variable self : instance.

Definition _get_ai_value (ai_channel : string) : io spec_float :=
  (ch <- ilift (of_result (dict_getitem (u3_pin_config self) ai_channel)) ;;
   getAIN ch 31)%io.

Definition get_voltage : io spec_float :=
  (pin_name <- ilift (of_result (dict_getitem (pw_wiring self) "V_monitor")) ;;
   _get_ai_value pin_name)%io.

Definition get_current : io spec_float :=
  (pin_name <- ilift (of_result (dict_getitem (pw_wiring self) "I_monitor")) ;;
   _get_ai_value pin_name)%io.

Definition _set_ao_value (dac_channel : string) (val : pynum) : io unit :=
  (reg <- ilift (of_result (dict_getitem (u3_dac_reg self) dac_channel)) ;;
   writeRegister reg val)%io.

Definition set_current (current : pynum) : io unit :=
  (dac_channel <- ilift (of_result (dict_getitem (pw_wiring self) "I_program")) ;;
   volt <- ilift (convert_to_readout_voltage (cls self) current CORRECTION_FACTOR) ;;
   _set_ao_value dac_channel volt)%io.
End Methods.

(** The objects that [DEPowerSupply(d)] and [ES03010(d)] build. *)
Definition supply (c : attrs) : instance :=
  {| cls := c; u3_pin_config := U3_PIN_CONFIG; u3_dac_reg := U3_DAC_REGISTER;
     pw_wiring := POWER_SUPPLY_WIRING |}.

End de_power_supply.

(* ====================================================================== *)
(** ** Vocabulary of the statements *)
(* ====================================================================== *)

(** Following a value through the remaining tables of a chain. *)
Fixpoint chain_lookup (ds : list pydict) (v : pyval) : option pyval :=
  match ds with
  | [] => Some v
  | d :: ds' =>
      match dict_find d v with
      | Some v' => chain_lookup ds' v'
      | None => None
      end
  end.

(** Every value of a table occurs as a key of the table that follows it. *)
Fixpoint chain_ok (d : pydict) (ds : list pydict) : Prop :=
  match ds with
  | [] => True
  | d' :: ds' =>
      (forall v, In v (dict_values d) -> In v (dict_keys d')) /\ chain_ok d' ds'
  end.

(** [r] has the keys of [d], in the same order, and sends each of them to
    the value that the chain [ds] gives for the value in [d]. *)
Definition composed (d : pydict) (ds : list pydict) (r : pydict) : Prop :=
  Forall2 (fun kv kr => fst kr = fst kv /\ chain_lookup ds (snd kv) = Some (snd kr)) d r.

(** The device after a further run of events. *)
Definition emits (evs : list event) (u : U3) : U3 :=
  {| dio := dio u; log := (log u ++ evs)%list |}.

(** The lines on which the three status LEDs arrive ([pin_dct] of [sm]). *)
Definition LINE_CONT : Z := 7.
Definition LINE_BURST : Z := 5.
Definition LINE_SINGLE : Z := 6.

(** The reading of the specification: the lines are scanned in the order
    continuous, burst, single, and the first one found low names the mode. *)
Definition first_low_setting (u : U3) : string :=
  if Z.eqb (dio u LINE_CONT) 0 then "cont"
  else if Z.eqb (dio u LINE_BURST) 0 then "burst"
  else if Z.eqb (dio u LINE_SINGLE) 0 then "single"
  else "auto".

(** The last line found low in that order names the mode. *)
Definition last_low_setting (u : U3) : string :=
  if Z.eqb (dio u LINE_SINGLE) 0 then "single"
  else if Z.eqb (dio u LINE_BURST) 0 then "burst"
  else if Z.eqb (dio u LINE_CONT) 0 then "cont"
  else "auto".

(** A device on which the given lines are low and all others high. *)
Definition device_with_low (lines : list Z) : U3 :=
  {| dio := fun io => if existsb (Z.eqb io) lines then 0 else 1; log := [] |}.

(** The batched write that [_walk] sends for a bit vector: the lines of
    ['bit0'], ['bit1'] and ['bit2'] are 0, 1 and 2 ([pin_dct] of [sm]). *)
Definition commands_of (bits : list Z) : list BitStateWrite :=
  map (fun lb => {| IONumber := fst lb; State := snd lb |})
      (combine [VInt 0; VInt 1; VInt 2] bits).

Definition STOP_BITS : list Z := [1; 1; 1].

(** One complete stop -> direction -> stop pulse with its two holds. *)
Definition pulse (bits : list Z) (duration : Q) : list event :=
  [ Feedback (commands_of STOP_BITS);
    Feedback (commands_of bits);
    Sleep (duration * (1 # 2));
    Feedback (commands_of STOP_BITS);
    Sleep (duration * (1 # 2)) ].

(** A pulse followed by the settle delay of the counted walks (0.01 s). *)
Definition pulse_and_delay (bits : list Z) (duration : Q) : list event :=
  (pulse bits duration ++ [Sleep (1 # 100)])%list.

Definition invalid_direction_msg (direction : string) : string :=
  "Passed direction " ++ direction
    ++ " is not valid. Try instead: dict_keys(['left', 'right', 'back', 'down', 'fwd', 'up', 'stop'])".

Definition invalid_direction_change_msg (dir_change : string) : string :=
  "Passed direction chane " ++ dir_change
    ++ " is not valid. Try instead: dict_keys(['fwd_to_back', 'back_to_fwd'])".

(** The rational number that a finite float stands for. *)
Definition SF2Q (x : spec_float) : Q :=
  match x with
  | S754_finite s m e =>
      match e with
      | Z0 => inject_Z (cond_Zopp s (Zpos m))
      | Zpos p => inject_Z (cond_Zopp s (Zpos m) * Zpos (2 ^ p))
      | Zneg p => cond_Zopp s (Zpos m) # (2 ^ p)
      end
  | _ => 0%Q
  end.

Definition is_finite (x : spec_float) : bool :=
  match x with
  | S754_zero _ | S754_finite _ _ _ => true
  | _ => false
  end.

(** Truncation of a rational towards zero. *)
Definition truncation (v : Q) : Z :=
  if Qle_bool 0 v then Qfloor v else Qceiling v.

(** Rounding of a rational to the nearest integer (halves away from
    zero), for comparison. *)
Definition nearest (v : Q) : Z :=
  if Qle_bool 0 v then Qfloor (v + (1 # 2)) else Qceiling (v - (1 # 2)).

Definition conv_to_msg (conv_to : string) : string :=
  "conv_to: " ++ conv_to
    ++ " is not a valid argument. Try instead: ['left', 'right', 'fwd', 'back']".



(** A batched write that puts the pattern of some direction of the table
    on the three bit lines. *)
Definition pattern_write (cmds : list BitStateWrite) : Prop :=
  exists direction bits, In (direction, bits) MOTOR_DIRECTIONS /\ cmds = commands_of bits.

(** The events that the motor classes may cause: complete pattern writes
    and sleeps of a non-negative length. *)
Definition benign (ev : event) : Prop :=
  match ev with
  | Feedback cmds => pattern_write cmds
  | Sleep secs => (0 <= secs)%Q
  end.

(** A computation that, whatever its outcome, has only appended benign
    events to the log of the device. *)
Definition only_patterns {A} (c : dev A) : Prop :=
  forall u, exists evs, snd (c u) = emits evs u /\ Forall benign evs.

(** The bits of a direction of the table. *)
Definition bits_of (direction : string) : list Z :=
  match dict_find MOTOR_DIRECTIONS direction with
  | Some bits => bits
  | None => []
  end.

(** The events of one entry (direction, count) of a turn sequence. *)
Definition burst_events (step_sequ : string * Z) : list event :=
  List.concat (repeat (pulse_and_delay (bits_of (fst step_sequ)) BURST_PULSE_DURATION)
                      (Z.to_nat (snd step_sequ))).

(** The sign of a number: [Some true] for negative (also -0.0), [None] for
    NaN. *)
Definition float_sign (x : spec_float) : option bool :=
  match x with
  | S754_zero s | S754_infinity s | S754_finite s _ _ => Some s
  | S754_nan => None
  end.

Definition num_sign (n : de_power_supply.pynum) : option bool :=
  match n with
  | de_power_supply.NInt z => Some (z <? 0)
  | de_power_supply.NFloat x => float_sign x
  end.

(** A computation that leaves the input levels alone, appends only benign
    events, and leaves every output line other than the three bit lines as
    it was. *)
Definition confined {A} (c : dev A) : Prop :=
  forall u,
    dio (snd (c u)) = dio u /\
    (exists evs, log (snd (c u)) = (log u ++ evs)%list /\ Forall benign evs) /\
    (forall io, ~ In io [0; 1; 2] -> output_state (snd (c u)) io = output_state u io).

(** A number that is, as a float, finite and greater than zero. *)
Definition positive_number (n : de_power_supply.pynum) : Prop :=
  exists m e, de_power_supply.to_float n = de_power_supply.Return (S754_finite false m e).

(* ====================================================================== *)
(** * Properties *)
(* ====================================================================== *)

Lemma sm_constructed : StepperMotorControl_init = Ok sm.
Proof. reflexivity. Qed.

Lemma asm_constructed : AdvancedStepperMotorControl_init = Ok asm.
Proof. reflexivity. Qed.

(** The example of the docstring of [compress_dict]. *)
Example compress_dict_docstring :
  compress_dict
    [ PDict [(VStr "1", VStr "A1"); (VStr "2", VStr "A2"); (VStr "3", VStr "A3")];
      PDict [(VStr "A1", VStr "B1"); (VStr "A2", VStr "B2"); (VStr "A3", VStr "B3")];
      PDict [(VStr "B1", VStr "C1"); (VStr "B2", VStr "C2"); (VStr "B3", VStr "C3")] ]
  = Ok [(VStr "1", VStr "C1"); (VStr "2", VStr "C2"); (VStr "3", VStr "C3")].
Proof. reflexivity. Qed.

(** The builtins on a few inputs. *)
Example py_int_literals :
  py_int (PVal (VStr " -12_3 ")) = Ok (-123) /\
  py_int (PVal (VStr "007")) = Ok 7 /\
  py_int (PVal (VInt (-3))) = Ok (-3) /\
  py_int (PVal (VStr "3.5"))
  = Raise (ValueError "invalid literal for int() with base 10: '3.5'") /\
  py_int (PVal (VStr "1__2"))
  = Raise (ValueError "invalid literal for int() with base 10: '1__2'") /\
  py_int (PVal VNone)
  = Raise (TypeError
             "int() argument must be a string, a bytes-like object or a real number, not 'NoneType'").
Proof. repeat split. Qed.

Example str_replace_led :
  str_replace "LED_cont" "LED_" "" = "cont" /\
  str_replace "LED_burst" "LED_" "" = "burst" /\
  str_replace "LED_single" "LED_" "" = "single".
Proof. repeat split. Qed.

(** 450./205. is the double 2.1951219512195124, and 100 times it is the
    double 219.51219512195124. *)
Example ratio_back_to_fwd :
  RATIO_BACK_TO_FWD = S754_finite false 4942975200772496 (-51) /\
  int_mul_float 100 RATIO_BACK_TO_FWD = Ok (S754_finite false 7723398751207025 (-45)).
Proof. split; vm_compute; reflexivity. Qed.

(** A name is not among the keys of a table given by a literal. *)
Ltac not_a_key :=
  simpl;
  let H := fresh "H" in
  intros H; repeat (destruct H as [H|H]; [discriminate H|]); exact H.

(** ** Dictionaries *)

Section DictFacts.
Context {K V : Type} `{Hashable K}.

Lemma key_eqb_refl (k : K) : key_eqb k k = true.
Proof. destruct (key_eqb_spec k k); congruence. Qed.

Lemma key_eqb_neq (a b : K) : a <> b -> key_eqb a b = false.
Proof. intros Hn. destruct (key_eqb_spec a b); congruence. Qed.

Lemma dict_find_None (d : dict K V) k : dict_find d k = None <-> ~ In k (dict_keys d).
Proof.
  induction d as [|[k' v] d IH]; simpl.
  - tauto.
  - destruct (key_eqb_spec k k') as [->|Hne].
    + split; [discriminate | intros Hn; exfalso; apply Hn; now left].
    + rewrite IH. split; [intros Hn [Heq|Hin]; congruence | tauto].
Qed.

Lemma dict_contains_In (d : dict K V) k : dict_contains d k = true <-> In k (dict_keys d).
Proof.
  unfold dict_contains. destruct (dict_find d k) eqn:E.
  - split; [intros _ | reflexivity].
    destruct (in_dec (fun a b => reflect_dec _ _ (key_eqb_spec a b)) k (dict_keys d)) as [Hin|Hn];
      [assumption | apply dict_find_None in Hn; congruence].
  - apply dict_find_None in E. split; [discriminate | tauto].
Qed.

Lemma dict_getitem_Some (d : dict K V) k v :
  dict_find d k = Some v -> dict_getitem d k = Ok v.
Proof. unfold dict_getitem. now intros ->. Qed.

Lemma dict_find_In (d : dict K V) k v : dict_find d k = Some v -> In v (dict_values d).
Proof.
  induction d as [|[k' v'] d IH]; simpl; [discriminate|].
  destruct (key_eqb k k'); [intros [= ->]; now left | right; auto].
Qed.

Lemma dict_setitem_fresh (d : dict K V) k v :
  ~ In k (dict_keys d) -> dict_setitem d k v = (d ++ [(k, v)])%list.
Proof.
  induction d as [|[k' v'] d IH]; simpl; intros Hn; [reflexivity|].
  rewrite key_eqb_neq by (intros ->; apply Hn; now left).
  rewrite IH; [reflexivity | tauto].
Qed.

Lemma fold_setitem_fresh (items acc : list (K * V)) :
  NoDup (dict_keys (acc ++ items)%list) ->
  fold_left (fun a kv => dict_setitem a (fst kv) (snd kv)) items acc = (acc ++ items)%list.
Proof.
  revert acc. induction items as [|[k v] items IH]; intros acc Hnd; simpl.
  - now rewrite app_nil_r.
  - assert (Hk : ~ In k (dict_keys acc)).
    { unfold dict_keys in *. rewrite map_app in Hnd. simpl in Hnd.
      apply NoDup_remove_2 in Hnd. intros Hin. apply Hnd. apply in_or_app. now left. }
    rewrite dict_setitem_fresh by assumption.
    rewrite IH; rewrite <- app_assoc; [reflexivity | exact Hnd].
Qed.

(** A comprehension over items with distinct keys keeps them as they come. *)
Lemma dict_of_items_wf (items : list (K * V)) :
  wf_dict items -> dict_of_items items = items.
Proof. intros Hwf. unfold dict_of_items. now rewrite fold_setitem_fresh. Qed.
End DictFacts.

(** ** The wiring resolver *)

Lemma composed_keys d ds r : composed d ds r -> dict_keys r = dict_keys d.
Proof.
  induction 1 as [|kv kr d r [Hk _] _ IH]; simpl; [reflexivity|].
  now rewrite Hk, IH.
Qed.

Lemma composed_nil d : composed d [] d.
Proof. induction d; constructor; auto. Qed.

Lemma composed_cons d tmp_ ds r1 r :
  composed d [tmp_] r1 -> composed r1 ds r -> composed d (tmp_ :: ds) r.
Proof.
  intros H1. revert r. induction H1 as [|kv kr d r1 [Hk Hv] _ IH]; intros r H2.
  - inversion H2. constructor.
  - inversion H2 as [|? kr' ? r' [Hk' Hv'] Hrest]; subst. constructor.
    + split; [congruence|]. simpl in *.
      destruct (dict_find tmp_ (snd kv)); [|discriminate].
      injection Hv as ->. exact Hv'.
    + now apply IH.
Qed.

Lemma compose_step_ok (dct tmp_ : pydict) :
  wf_dict dct ->
  (forall v, In v (dict_values dct) -> In v (dict_keys tmp_)) ->
  exists r, compose_step dct tmp_ = Ok r /\ composed dct [tmp_] r.
Proof.
  intros Hwf Hsub.
  assert (Hm : exists r,
             mapM (fun kv => (x <- dict_getitem tmp_ (snd kv) ;; Ok (fst kv, x))%res) dct
             = Ok r /\ composed dct [tmp_] r).
  { clear Hwf. induction dct as [|[k v] dct IH].
    - exists []. split; [reflexivity | constructor].
    - destruct IH as (r & Hr & Hc); [intros w Hw; apply Hsub; now right|].
      assert (Hin : In v (dict_keys tmp_)) by (apply Hsub; now left).
      apply dict_contains_In in Hin. unfold dict_contains in Hin.
      destruct (dict_find tmp_ v) as [x|] eqn:E; [|discriminate].
      exists ((k, x) :: r). split.
      + cbn [mapM snd fst]. rewrite (dict_getitem_Some _ _ _ E). cbn [rbind].
        rewrite Hr. reflexivity.
      + constructor; [|exact Hc]. simpl. rewrite E. auto. }
  destruct Hm as (r & Hr & Hc). exists r. split; [|exact Hc].
  unfold compose_step, dict_items. rewrite Hr. cbn [rbind].
  rewrite dict_of_items_wf; [reflexivity|].
  unfold wf_dict. rewrite (composed_keys _ _ _ Hc). exact Hwf.
Qed.

Lemma composed_values dct tmp_ r :
  composed dct [tmp_] r -> forall v, In v (dict_values r) -> In v (dict_values tmp_).
Proof.
  induction 1 as [|kv kr d r [_ Hv] _ IH]; simpl; [tauto|].
  intros v [<-|Hin]; [|auto].
  cbn [chain_lookup] in Hv.
  destruct (dict_find tmp_ (snd kv)) eqn:E; [|discriminate].
  injection Hv as <-. eapply dict_find_In; eassumption.
Qed.

Lemma compress_loop_ok (ds : list pydict) :
  forall dct, wf_dict dct -> chain_ok dct ds ->
  exists r, compress_loop dct ds = Ok r /\ composed dct ds r.
Proof.
  induction ds as [|tmp_ ds IH]; intros dct Hwf Hok.
  - exists dct. split; [reflexivity | apply composed_nil].
  - destruct Hok as [Hsub Hok].
    destruct (compose_step_ok dct tmp_ Hwf Hsub) as (r1 & Hstep & Hc1).
    destruct (IH r1) as (r & Hr & Hc).
    + unfold wf_dict. rewrite (composed_keys _ _ _ Hc1). exact Hwf.
    + destruct ds as [|d' ds']; [exact I|]. destruct Hok as [Hsub' Hok'].
      split; [|exact Hok']. intros v Hv. apply Hsub'.
      eapply composed_values; eassumption.
    + exists r. split; [|eapply composed_cons; eassumption].
      cbn [compress_loop].
      replace (forallb (fun val => dict_contains tmp_ val) (dict_values dct)) with true.
      * cbn [negb]. rewrite Hstep. exact Hr.
      * symmetry. apply forallb_forall. intros v Hv. apply dict_contains_In. auto.
Qed.

Lemma check_dicts_all (ds : list pydict) : check_dicts (map PDict ds) = Ok ds.
Proof. induction ds as [|d ds IH]; simpl; [reflexivity | now rewrite IH]. Qed.

Lemma chain_lookup_last ds : forall d0 v v',
  ds <> [] -> chain_lookup ds v = Some v' -> In v' (dict_values (last ds d0)).
Proof.
  induction ds as [|d ds IH]; intros d0 v v' Hne Hl; [congruence|].
  cbn [chain_lookup] in Hl. destruct (dict_find d v) as [w|] eqn:E; [|discriminate].
  destruct ds as [|d' ds'].
  - simpl in Hl. injection Hl as <-. simpl. eapply dict_find_In; eassumption.
  - change (last (d :: d' :: ds') d0) with (last (d' :: ds') d0).
    eapply IH; [discriminate | eassumption].
Qed.

Lemma last_head {A} (l : list A) (a d : A) : last (a :: l) d = last l a.
Proof.
  revert a d. induction l as [|b l IH]; intros a d; [reflexivity|].
  change (last (a :: b :: l) d) with (last (b :: l) d).
  rewrite (IH b d). symmetry. apply IH.
Qed.

Lemma composed_Forall d ds r (P : pyval -> Prop) :
  composed d ds r ->
  (forall v v', chain_lookup ds v = Some v' -> P v') ->
  Forall (fun kr => P (snd kr)) r.
Proof.
  intros Hc HP. induction Hc as [|kv kr d r [_ Hv] _ IH]; constructor; eauto.
Qed.

(** C1. For a chain of two or more dicts in which every value of a table is a
    key of the next one, [compress_dict] returns a dict that has exactly the
    keys of the first table, in their order, and sends each key to the value
    reached by chaining the lookups through all the tables; that value is a
    value of the last table. *)
Theorem compress_dict_chain (d1 d2 : pydict) (ds : list pydict) :
  Forall wf_dict (d1 :: d2 :: ds) ->
  chain_ok d1 (d2 :: ds) ->
  exists r,
    compress_dict (map PDict (d1 :: d2 :: ds)) = Ok r /\
    composed d1 (d2 :: ds) r /\
    Forall (fun kr => In (snd kr) (dict_values (last ds d2))) r.
Proof.
  intros Hwf Hok.
  destruct (compress_loop_ok (d2 :: ds) d1) as (r & Hr & Hc);
    [now inversion Hwf | exact Hok |].
  exists r. split; [|split; [exact Hc|]].
  - unfold compress_dict. rewrite check_dicts_all. exact Hr.
  - apply (composed_Forall _ _ _ (fun v => In v (dict_values (last ds d2))) Hc).
    intros v v' Hv.
    rewrite <- (last_head ds d2 d2).
    eapply chain_lookup_last; [discriminate | exact Hv].
Qed.

(** The chain of the specification's own example satisfies the hypotheses,
    and the theorem then fixes the result: [{'1': 'C'}]. *)
Lemma compress_dict_chain_witness :
  Forall wf_dict [[(VStr "1", VStr "A")]; [(VStr "A", VStr "B")]; [(VStr "B", VStr "C")]] /\
  chain_ok [(VStr "1", VStr "A")] [[(VStr "A", VStr "B")]; [(VStr "B", VStr "C")]] /\
  compress_dict [ PDict [(VStr "1", VStr "A")]; PDict [(VStr "A", VStr "B")];
                  PDict [(VStr "B", VStr "C")] ]
  = Ok [(VStr "1", VStr "C")].
Proof.
  assert (Hwf : Forall wf_dict
                  [[(VStr "1", VStr "A")]; [(VStr "A", VStr "B")]; [(VStr "B", VStr "C")]]).
  { repeat constructor; simpl; tauto. }
  assert (Hok : chain_ok [(VStr "1", VStr "A")]
                  [[(VStr "A", VStr "B")]; [(VStr "B", VStr "C")]]).
  { simpl. repeat split; intros v [<-|[]]; now left. }
  split; [exact Hwf | split; [exact Hok|]].
  destruct (compress_dict_chain _ _ _ Hwf Hok) as (r & Hr & Hc & _).
  cbn [map] in Hr. rewrite Hr. f_equal.
  inversion Hc as [|kv [k v] d r' [Hk Hv] Hrest]; subst.
  inversion Hrest; subst. simpl in Hk, Hv. congruence.
Defined.

(** ** The mode read-back *)

Lemma get_motor_setting_eq (u : U3) :
  get_motor_setting sm u = (Ok (last_low_setting u), u).
Proof.
  unfold get_motor_setting, last_low_setting, LINE_SINGLE, LINE_BURST, LINE_CONT.
  cbn.
  destruct (dio u 7 =? 0)%Z, (dio u 5 =? 0)%Z, (dio u 6 =? 0)%Z; reflexivity.
Qed.

(** C3 (as the code has it).  Whatever the three status lines show,
    [get_motor_setting] returns the mode of the last line found low in the
    order cont, burst, single, and leaves the device as it was: a low single
    line gives ['single']; otherwise a low burst line gives ['burst'];
    otherwise a low cont line gives ['cont']; with no line low the answer is
    ['auto']. *)
Theorem get_motor_setting_last_low (u : U3) :
  get_motor_setting sm u = (Ok (last_low_setting u), u) /\
  (dio u LINE_SINGLE = 0 -> last_low_setting u = "single") /\
  (dio u LINE_SINGLE <> 0 -> dio u LINE_BURST = 0 -> last_low_setting u = "burst") /\
  (dio u LINE_SINGLE <> 0 -> dio u LINE_BURST <> 0 -> dio u LINE_CONT = 0 ->
   last_low_setting u = "cont") /\
  (dio u LINE_SINGLE <> 0 -> dio u LINE_BURST <> 0 -> dio u LINE_CONT <> 0 ->
   last_low_setting u = "auto").
Proof.
  split; [apply get_motor_setting_eq|].
  unfold last_low_setting.
  destruct (Z.eqb_spec (dio u LINE_CONT) 0), (Z.eqb_spec (dio u LINE_BURST) 0),
    (Z.eqb_spec (dio u LINE_SINGLE) 0); repeat split; intros; try reflexivity;
    congruence.
Qed.

Lemma get_motor_setting_last_low_witness :
  fst (get_motor_setting sm (device_with_low [LINE_CONT; LINE_BURST; LINE_SINGLE]))
    = Ok "single" /\
  fst (get_motor_setting sm (device_with_low [LINE_CONT; LINE_BURST])) = Ok "burst" /\
  fst (get_motor_setting sm (device_with_low [LINE_CONT])) = Ok "cont" /\
  fst (get_motor_setting sm (device_with_low [])) = Ok "auto".
Proof.
  split; [|split; [|split]].
  - destruct (get_motor_setting_last_low
                (device_with_low [LINE_CONT; LINE_BURST; LINE_SINGLE]))
      as (E & H1 & _).
    rewrite E. cbn [fst]. rewrite H1; reflexivity.
  - destruct (get_motor_setting_last_low (device_with_low [LINE_CONT; LINE_BURST]))
      as (E & _ & H2 & _).
    rewrite E. cbn [fst]. rewrite H2; [reflexivity | discriminate | reflexivity].
  - destruct (get_motor_setting_last_low (device_with_low [LINE_CONT]))
      as (E & _ & _ & H3 & _).
    rewrite E. cbn [fst].
    rewrite H3; [reflexivity | discriminate | discriminate | reflexivity].
  - destruct (get_motor_setting_last_low (device_with_low [])) as (E & _ & _ & _ & H4).
    rewrite E. cbn [fst]. rewrite H4; [reflexivity | discriminate ..].
Defined.

(** C3, counterexample.  With the cont and the single line both low the first
    line found low is the cont line, but [get_motor_setting] answers
    ['single']. *)
Lemma get_motor_setting_not_first_low :
  let u := device_with_low [LINE_CONT; LINE_SINGLE] in
  first_low_setting u = "cont" /\
  fst (get_motor_setting sm u) = Ok "single" /\
  fst (get_motor_setting sm u) <> Ok (first_low_setting u).
Proof. repeat split. discriminate. Qed.

(** ** The pulse sequencer *)

Lemma emit_emits ev u : emit ev u = emits [ev] u.
Proof. reflexivity. Qed.

Lemma emits_emits a b u : emits b (emits a u) = emits (a ++ b) u.
Proof. unfold emits. cbn [dio log]. now rewrite app_assoc. Qed.

Lemma emits_nil u : emits [] u = u.
Proof. destruct u. unfold emits. cbn [dio log]. now rewrite app_nil_r. Qed.

Lemma mot_dir_keys : dict_keys (mot_dir sm) = dict_keys MOTOR_DIRECTIONS.
Proof. reflexivity. Qed.

Lemma _check_motor_direction_invalid direction :
  ~ In direction (dict_keys MOTOR_DIRECTIONS) ->
  _check_motor_direction sm direction
  = Raise (StepperMotorException (invalid_direction_msg direction)).
Proof.
  intros Hn. unfold _check_motor_direction.
  destruct (dict_contains (mot_dir sm) direction) eqn:E.
  - apply dict_contains_In in E. rewrite mot_dir_keys in E. contradiction.
  - reflexivity.
Qed.

Lemma _walk_valid direction bits u :
  In (direction, bits) MOTOR_DIRECTIONS ->
  _walk sm direction u = (Ok tt, emits [Feedback (commands_of bits)] u).
Proof.
  intros Hin. simpl in Hin.
  repeat (destruct Hin as [Hin|Hin]; [injection Hin as <- <-; reflexivity|]).
  contradiction.
Qed.

Lemma _walk_invalid direction u :
  ~ In direction (dict_keys MOTOR_DIRECTIONS) ->
  _walk sm direction u = (Raise (StepperMotorException (invalid_direction_msg direction)), u).
Proof.
  intros Hn. unfold _walk, dbind, lift.
  now rewrite (_check_motor_direction_invalid _ Hn).
Qed.

Lemma stop_valid : In ("stop", STOP_BITS) MOTOR_DIRECTIONS.
Proof. simpl. tauto. Qed.

Lemma time_sleep_ok (secs : Q) u :
  (0 <= secs)%Q -> time_sleep secs u = (Ok tt, emits [Sleep secs] u).
Proof.
  intros Hs. unfold time_sleep. apply Qle_bool_iff in Hs. now rewrite Hs.
Qed.

Lemma half_nonneg (d : Q) : (0 <= d)%Q -> (0 <= d * (1 # 2))%Q.
Proof. intros Hd. apply Qmult_le_0_compat; [exact Hd | discriminate]. Qed.

Lemma walk_valid direction bits (duration : Q) u :
  In (direction, bits) MOTOR_DIRECTIONS -> (0 <= duration)%Q ->
  walk sm direction duration u = (Ok tt, emits (pulse bits duration) u).
Proof.
  intros Hin Hd. unfold walk, dbind.
  rewrite (_walk_valid _ _ _ stop_valid).
  rewrite (_walk_valid _ _ _ Hin).
  rewrite (time_sleep_ok _ _ (half_nonneg _ Hd)).
  rewrite (_walk_valid _ _ _ stop_valid).
  rewrite (time_sleep_ok _ _ (half_nonneg _ Hd)).
  now rewrite !emits_emits.
Qed.

Lemma for_range_emits (body : dev unit) (evs : list event) :
  (forall u, body u = (Ok tt, emits evs u)) ->
  forall n u, for_range n body u = (Ok tt, emits (List.concat (repeat evs n)) u).
Proof.
  intros Hbody. induction n as [|n IH]; intros u.
  - cbn. now rewrite emits_nil.
  - cbn [for_range repeat List.concat]. unfold dbind. rewrite Hbody, IH.
    now rewrite emits_emits.
Qed.

Lemma setting_neq (u : U3) (mode : string) :
  fst (get_motor_setting sm u) <> Ok mode -> String.eqb (last_low_setting u) mode = false.
Proof.
  rewrite get_motor_setting_eq. cbn [fst]. intros Hn.
  destruct (String.eqb_spec (last_low_setting u) mode); congruence.
Qed.

Lemma setting_eq (u : U3) (mode : string) :
  fst (get_motor_setting sm u) = Ok mode -> String.eqb (last_low_setting u) mode = true.
Proof.
  rewrite get_motor_setting_eq. cbn [fst]. intros [= ->]. apply String.eqb_refl.
Qed.

Lemma walk_steps_int direction (n : Z) (d : Q) u :
  walk_steps sm direction (PVal (VInt n)) d u
  = if negb (String.eqb (last_low_setting u) "single")
    then (Raise (StepperMotorException NEED_SINGLE), u)
    else for_range (Z.to_nat n) (walk sm direction d ;; time_sleep (1 # 100))%dev u.
Proof.
  unfold walk_steps, dbind, lift. cbn [_convert_n_steps_to_int py_int].
  rewrite get_motor_setting_eq.
  destruct (String.eqb (last_low_setting u) "single"); reflexivity.
Qed.

Lemma walk_bursts_int direction (n : Z) u :
  walk_bursts sm direction (PVal (VInt n)) u
  = if negb (String.eqb (last_low_setting u) "burst")
    then (Raise (StepperMotorException NEED_BURST), u)
    else for_range (Z.to_nat n)
           (walk sm direction BURST_PULSE_DURATION ;; time_sleep (1 # 100))%dev u.
Proof.
  unfold walk_bursts, dbind, lift. cbn [_convert_n_steps_to_int py_int].
  rewrite get_motor_setting_eq.
  destruct (String.eqb (last_low_setting u) "burst"); reflexivity.
Qed.

Lemma pulse_body direction bits (d : Q) u :
  In (direction, bits) MOTOR_DIRECTIONS -> (0 <= d)%Q ->
  (walk sm direction d ;; time_sleep (1 # 100))%dev u
  = (Ok tt, emits (pulse_and_delay bits d) u).
Proof.
  intros Hin Hd. unfold dbind. rewrite (walk_valid _ _ _ _ Hin Hd).
  rewrite time_sleep_ok by discriminate. now rewrite emits_emits.
Qed.

Lemma walk_bursts_burst direction bits (n : nat) u :
  In (direction, bits) MOTOR_DIRECTIONS ->
  fst (get_motor_setting sm u) = Ok "burst" ->
  walk_bursts sm direction (PVal (VInt (Z.of_nat n))) u
  = (Ok tt,
     emits (List.concat (repeat (pulse_and_delay bits BURST_PULSE_DURATION) n)) u).
Proof.
  intros Hin Hmode. rewrite walk_bursts_int, (setting_eq _ _ Hmode). cbn [negb].
  rewrite Nat2Z.id. apply for_range_emits. intros u'.
  apply pulse_body; [exact Hin | discriminate].
Qed.



Lemma last_written_app (l l' : list BitStateWrite) io :
  last_written (l ++ l') io
  = match last_written l' io with
    | Some st => Some st
    | None => last_written l io
    end.
Proof.
  induction l as [|c l IH]; simpl.
  - now destruct (last_written l' io).
  - rewrite IH. now destruct (last_written l' io).
Qed.

Lemma output_state_emits_feedback cmds u io :
  output_state (emits [Feedback cmds] u) io
  = match last_written cmds io with
    | Some st => Some st
    | None => output_state u io
    end.
Proof.
  unfold output_state, emits. cbn [log]. rewrite flat_map_app. cbn [flat_map writes_of].
  rewrite app_nil_r. apply last_written_app.
Qed.

(** C9. For a direction name that is not in the table and any duration,
    [walk] raises the [StepperMotorException] of the direction check, but
    only after the batched write of the stop pattern has gone out: the log of
    the device has grown by exactly that write, and the three bit lines are
    at the stop pattern. *)
Theorem walk_invalid_direction_writes_stop direction (duration : Q) (u : U3) :
  ~ In direction (dict_keys MOTOR_DIRECTIONS) ->
  walk sm direction duration u
  = (Raise (StepperMotorException (invalid_direction_msg direction)),
     emits [Feedback (commands_of STOP_BITS)] u) /\
  log (snd (walk sm direction duration u))
  = (log u ++ [Feedback (commands_of STOP_BITS)])%list /\
  log (snd (walk sm direction duration u)) <> log u /\
  (forall io, In io [0; 1; 2] ->
     output_state (snd (walk sm direction duration u)) io = Some 1).
Proof.
  intros Hn.
  assert (E : walk sm direction duration u
              = (Raise (StepperMotorException (invalid_direction_msg direction)),
                 emits [Feedback (commands_of STOP_BITS)] u)).
  { unfold walk, dbind. rewrite (_walk_valid _ _ _ stop_valid).
    now rewrite (_walk_invalid _ _ Hn). }
  rewrite E. cbn [snd]. repeat split.
  - unfold emits. cbn [log]. intros Heq.
    apply (f_equal (@List.length event)) in Heq. rewrite length_app in Heq.
    cbn [List.length] in Heq. lia.
  - intros io Hio. rewrite output_state_emits_feedback.
    simpl in Hio. destruct Hio as [<-|[<-|[<-|[]]]]; reflexivity.
Qed.

Lemma walk_invalid_direction_writes_stop_witness :
  ~ In "diagonal" (dict_keys MOTOR_DIRECTIONS) /\
  walk sm "diagonal" (1 # 10) (device_with_low [LINE_SINGLE])
  = (Raise (StepperMotorException (invalid_direction_msg "diagonal")),
     emits [Feedback (commands_of STOP_BITS)] (device_with_low [LINE_SINGLE])).
Proof.
  assert (Hn : ~ In "diagonal" (dict_keys MOTOR_DIRECTIONS)).
  { not_a_key. }
  split; [exact Hn|].
  apply (proj1 (walk_invalid_direction_writes_stop "diagonal" (1 # 10)
                  (device_with_low [LINE_SINGLE]) Hn)).
Defined.

(** ** The direction encoder *)

(** C5. The encoding of a direction is the entry of [mot_dir] that [_walk]
    reads after [_check_motor_direction] has let the name through.  For each
    of the seven directions of the table the check passes and the entry is
    the ordered mapping of 'bit0', 'bit1', 'bit2' to the three bits of the
    table, each 0 or 1 (for 'left': 1, 0, 1); for any other name the check
    raises [StepperMotorException] with a message that lists the seven valid
    names. *)
Theorem encode_matches_table :
  dict_keys MOTOR_DIRECTIONS = ["left"; "right"; "back"; "down"; "fwd"; "up"; "stop"] /\
  (forall direction bits,
     In (direction, bits) MOTOR_DIRECTIONS ->
     _check_motor_direction sm direction = Ok tt /\
     exists b0 b1 b2,
       bits = [b0; b1; b2] /\
       Forall (fun b => b = 0 \/ b = 1) bits /\
       dict_getitem (mot_dir sm) direction
       = Ok [("bit0", b0); ("bit1", b1); ("bit2", b2)]) /\
  dict_getitem (mot_dir sm) "left" = Ok [("bit0", 1); ("bit1", 0); ("bit2", 1)] /\
  (forall direction,
     ~ In direction (dict_keys MOTOR_DIRECTIONS) ->
     _check_motor_direction sm direction
     = Raise (StepperMotorException
                ("Passed direction " ++ direction
                   ++ " is not valid. Try instead: dict_keys(['left', 'right', 'back', 'down', 'fwd', 'up', 'stop'])"))).
Proof.
  split; [reflexivity | split; [|split; [reflexivity|]]].
  - intros direction bits Hin. simpl in Hin.
    repeat (destruct Hin as [Hin|Hin];
            [injection Hin as <- <-; split; [reflexivity|];
             do 3 eexists; split; [reflexivity|]; split; [|reflexivity];
             repeat apply Forall_cons; try apply Forall_nil;
             ((now left) || (now right)) |]).
    contradiction.
  - intros direction Hn. now apply _check_motor_direction_invalid.
Qed.

Lemma encode_matches_table_witness :
  In ("back", [0; 1; 0]) MOTOR_DIRECTIONS /\
  ~ In "diagonal" (dict_keys MOTOR_DIRECTIONS) /\
  _check_motor_direction sm "back" = Ok tt /\
  _check_motor_direction sm "diagonal"
  = Raise (StepperMotorException
             "Passed direction diagonal is not valid. Try instead: dict_keys(['left', 'right', 'back', 'down', 'fwd', 'up', 'stop'])").
Proof.
  assert (Hin : In ("back", [0; 1; 0]) MOTOR_DIRECTIONS) by (simpl; tauto).
  assert (Hn : ~ In "diagonal" (dict_keys MOTOR_DIRECTIONS)).
  { not_a_key. }
  destruct encode_matches_table as (_ & Hvalid & _ & Hinvalid).
  split; [exact Hin | split; [exact Hn | split]].
  - exact (proj1 (Hvalid _ _ Hin)).
  - exact (Hinvalid _ Hn).
Defined.

(** ** The turn-around corrector *)

Lemma _check_direction_change_invalid dir_change :
  ~ In dir_change (dict_keys TURN_AROUND_STEP_SEQUENCE) ->
  _check_direction_change asm dir_change
  = Raise (AdvancedStepperMotorException (invalid_direction_change_msg dir_change)).
Proof.
  intros Hn. unfold _check_direction_change.
  destruct (dict_contains (turn_dct asm) dir_change) eqn:E.
  - apply dict_contains_In in E. contradiction.
  - reflexivity.
Qed.

(** C4. In burst mode [turn_around('fwd_to_back')] is [walk_bursts('fwd', 100)]
    followed by [walk_bursts('back', 55)]: the device receives 100 burst
    pulses forward, then 55 burst pulses back, and nothing else.  For a key
    that is not in the turn-sequence table, [turn_around] raises
    [AdvancedStepperMotorException] and the device is as before. *)
Theorem turn_around_fwd_to_back :
  dict_find TURN_AROUND_STEP_SEQUENCE "fwd_to_back" = Some [("fwd", 100); ("back", 55)] /\
  (forall u,
     fst (get_motor_setting asm u) = Ok "burst" ->
     turn_around asm "fwd_to_back" u
     = (walk_bursts asm "fwd" (PVal (VInt 100)) ;;
        walk_bursts asm "back" (PVal (VInt 55)))%dev u /\
     turn_around asm "fwd_to_back" u
     = (Ok tt,
        emits (List.concat (repeat (pulse_and_delay [0; 0; 1] BURST_PULSE_DURATION) 100)
               ++ List.concat (repeat (pulse_and_delay [0; 1; 0] BURST_PULSE_DURATION) 55))
              u)) /\
  (forall dir_change u,
     ~ In dir_change (dict_keys TURN_AROUND_STEP_SEQUENCE) ->
     turn_around asm dir_change u
     = (Raise (AdvancedStepperMotorException (invalid_direction_change_msg dir_change)), u)).
Proof.
  split; [reflexivity | split].
  - intros u Hmode.
    assert (Hfwd : In ("fwd", [0; 0; 1]) MOTOR_DIRECTIONS) by (simpl; tauto).
    assert (Hback : In ("back", [0; 1; 0]) MOTOR_DIRECTIONS) by (simpl; tauto).
    assert (H1 := walk_bursts_burst "fwd" _ 100 u Hfwd Hmode).
    set (u1 := emits (List.concat (repeat (pulse_and_delay [0; 0; 1] BURST_PULSE_DURATION) 100)) u) in *.
    assert (Hmode1 : fst (get_motor_setting sm u1) = Ok "burst").
    { rewrite get_motor_setting_eq in *. exact Hmode. }
    assert (H2 := walk_bursts_burst "back" _ 55 u1 Hback Hmode1).
    change (Z.of_nat 100) with 100 in H1. change (Z.of_nat 55) with 55 in H2.
    assert (E : (walk_bursts asm "fwd" (PVal (VInt 100)) ;;
                 walk_bursts asm "back" (PVal (VInt 55)))%dev u
                = (Ok tt,
                   emits (List.concat (repeat (pulse_and_delay [0; 0; 1] BURST_PULSE_DURATION) 100)
                          ++ List.concat (repeat (pulse_and_delay [0; 1; 0] BURST_PULSE_DURATION) 55))
                         u)).
    { unfold dbind. change (base asm) with sm. rewrite H1, H2. unfold u1.
      now rewrite emits_emits. }
    split; [rewrite E|].
    all: unfold turn_around, dbind, lift; cbn [_check_direction_change];
      change (base asm) with sm; cbn -[walk_bursts emits repeat];
      unfold dbind; rewrite H1, H2; unfold u1, dret; now rewrite emits_emits.
  - intros dir_change u Hn. unfold turn_around, dbind, lift.
    now rewrite (_check_direction_change_invalid _ Hn).
Qed.

Lemma turn_around_fwd_to_back_witness :
  fst (get_motor_setting asm (device_with_low [LINE_BURST])) = Ok "burst" /\
  ~ In "left_to_right" (dict_keys TURN_AROUND_STEP_SEQUENCE) /\
  fst (turn_around asm "fwd_to_back" (device_with_low [LINE_BURST])) = Ok tt /\
  turn_around asm "left_to_right" (device_with_low [LINE_BURST])
  = (Raise (AdvancedStepperMotorException (invalid_direction_change_msg "left_to_right")),
     device_with_low [LINE_BURST]).
Proof.
  assert (Hmode : fst (get_motor_setting asm (device_with_low [LINE_BURST])) = Ok "burst")
    by reflexivity.
  assert (Hn : ~ In "left_to_right" (dict_keys TURN_AROUND_STEP_SEQUENCE)).
  { not_a_key. }
  destruct turn_around_fwd_to_back as (_ & Hseq & Hkey).
  split; [exact Hmode | split; [exact Hn | split]].
  - rewrite (proj2 (Hseq _ Hmode)). reflexivity.
  - exact (Hkey _ _ Hn).
Defined.

(** C10. The directions 'up', 'down' and 'stop' pass the direction check,
    but [TURN_AROUND_FROM] has only the keys 'left', 'right', 'fwd' and
    'back': [turn_around_from] raises a [KeyError] carrying the direction
    -- neither of the two exception classes of the module -- and the device
    is as before, so no burst was issued. *)
Theorem turn_around_from_key_error direction (u : U3) :
  In direction ["up"; "down"; "stop"] ->
  dict_keys TURN_AROUND_FROM = ["left"; "right"; "fwd"; "back"] /\
  _check_motor_direction asm direction = Ok tt /\
  turn_around_from asm direction u = (Raise (KeyError (VStr direction)), u).
Proof.
  intros Hin. simpl in Hin.
  destruct Hin as [<-|[<-|[<-|[]]]]; repeat split.
Qed.

Lemma turn_around_from_key_error_witness :
  In "up" ["up"; "down"; "stop"] /\
  turn_around_from asm "up" (device_with_low [LINE_BURST])
  = (Raise (KeyError (VStr "up")), device_with_low [LINE_BURST]).
Proof.
  assert (Hin : In "up" ["up"; "down"; "stop"]) by (simpl; tauto).
  split; [exact Hin|].
  exact (proj2 (proj2 (turn_around_from_key_error "up" (device_with_low [LINE_BURST]) Hin))).
Defined.

(** ** Step counts *)

Lemma dict_find_Some_In {V} (d : dict string V) k v :
  dict_find d k = Some v -> In (k, v) d.
Proof.
  induction d as [|[k' v'] d IH]; simpl; [discriminate|].
  destruct (String.eqb_spec k k') as [->|Hne].
  - intros [= ->]. now left.
  - intros Hf. right. auto.
Qed.














(** ** The unit converter *)

Section Binary64.
Let prec := b64_prec.
Let emax := b64_emax.

Lemma shr_1_nonneg mrs : 0 <= shr_m mrs -> 0 <= shr_m (shr_1 mrs).
Proof.
  destruct mrs as [m r s']. cbn [shr_m]. intros Hm.
  destruct m as [|[p|p|]|p]; cbn; lia.
Qed.

Lemma iter_pos_shr_1_nonneg p : forall mrs,
  0 <= shr_m mrs -> 0 <= shr_m (iter_pos shr_1 p mrs).
Proof.
  induction p as [p IH|p IH|]; intros mrs Hm; cbn [iter_pos];
    auto using shr_1_nonneg.
Qed.

Lemma shr_fexp_nonneg m e l :
  0 <= m -> 0 <= shr_m (fst (shr_fexp prec emax m e l)).
Proof.
  intros Hm. unfold shr_fexp, shr.
  assert (H0 : 0 <= shr_m (shr_record_of_loc m l)) by (destruct l as [|[]]; exact Hm).
  destruct (fexp prec emax (Zdigits2 m + e) - e); cbn [fst];
    auto using iter_pos_shr_1_nonneg.
Qed.

Lemma round_nearest_even_nonneg m l : 0 <= m -> 0 <= round_nearest_even m l.
Proof.
  intros Hm. destruct l as [|[]]; cbn; try lia.
  destruct (Z.even m); lia.
Qed.

(** Rounding a non-negative mantissa never yields NaN. *)
Lemma binary_round_aux_cases sx mx ex lx :
  0 <= mx ->
  let x := binary_round_aux prec emax sx mx ex lx in
  is_finite x = true \/ x = S754_infinity sx.
Proof.
  intros Hm. cbv zeta. unfold binary_round_aux.
  pose proof (shr_fexp_nonneg mx ex lx Hm) as H1.
  destruct (shr_fexp prec emax mx ex lx) as [mrs' e']. cbn [fst] in H1.
  pose proof (shr_fexp_nonneg _ e' loc_Exact
                (round_nearest_even_nonneg _ (loc_of_shr_record mrs') H1)) as H2.
  destruct (shr_fexp prec emax (round_nearest_even (shr_m mrs') (loc_of_shr_record mrs'))
              e' loc_Exact) as [mrs'' e'']. cbn [fst] in H2.
  destruct (shr_m mrs'') as [|m|m]; [now left | | lia].
  destruct (e'' <=? emax - prec); [now left | now right].
Qed.

Lemma float_of_int_finite z x : float_of_int z = Ok x -> is_finite x = true.
Proof.
  unfold float_of_int, binary_normalize, binary_round.
  destruct z as [|m|m]; [intros [= <-]; reflexivity | |].
  all: match goal with
       | |- context [shl_align ?a ?b ?c] => destruct (shl_align a b c) as [mz ez]
       end.
  all: match goal with
       | |- context [binary_round_aux ?p ?e ?s ?m ?x ?l] =>
           destruct (binary_round_aux_cases s m x l) as [Hf|Hi]; [lia | |];
           fold prec emax;
           [destruct (binary_round_aux prec emax s m x l); try discriminate Hf;
            intros [= <-]; reflexivity
           | rewrite Hi; discriminate]
       end.
Qed.

Lemma SFmul_cases x y :
  is_finite x = true -> is_finite y = true ->
  is_finite (SFmul prec emax x y) = true
  \/ exists s, SFmul prec emax x y = S754_infinity s.
Proof.
  destruct x as [sx|sx| |sx mx ex], y as [sy|sy| |sy my ey]; try discriminate;
    intros _ _; cbn [SFmul]; try (now left).
  destruct (binary_round_aux_cases (xorb sx sy) (Zpos (mx * my)) (ex + ey) loc_Exact)
    as [Hf|Hi]; [lia | now left | right; eauto].
Qed.
End Binary64.

Lemma Qle_bool_inject_Z (z : Z) : Qle_bool 0 (inject_Z z) = (0 <=? z).
Proof. unfold Qle_bool, inject_Z. cbn. now rewrite Z.mul_1_r. Qed.

(** [int()] of a finite float is the truncation of its value. *)
Lemma int_of_float_truncation x :
  is_finite x = true -> int_of_float x = Ok (truncation (SF2Q x)).
Proof.
  destruct x as [s|s| |s m e]; try discriminate; intros _; [reflexivity|].
  cbn [int_of_float]. f_equal. unfold truncation, SF2Q.
  destruct e as [|p|p].
  - rewrite Qle_bool_inject_Z. rewrite Z.shiftl_0_r.
    destruct s; cbn [cond_Zopp].
    + cbn. unfold Qceiling. cbn. now rewrite Z.div_1_r.
    + cbn. now rewrite Z.div_1_r.
  - rewrite Qle_bool_inject_Z. rewrite Z.shiftl_mul_pow2 by lia.
    rewrite <- Pos2Z.inj_pow.
    destruct s; cbn [cond_Zopp].
    + replace (0 <=? Z.neg m * Z.pos (2 ^ p)) with false by (symmetry; apply Z.leb_gt; lia).
      now rewrite Qceiling_Z.
    + replace (0 <=? Z.pos m * Z.pos (2 ^ p)) with true by (symmetry; apply Z.leb_le; lia).
      now rewrite Qfloor_Z.
  - change (Z.shiftl (Z.pos m) (Z.neg p)) with (Z.shiftr (Z.pos m) (Z.pos p)).
    rewrite Z.shiftr_div_pow2 by lia. rewrite <- Pos2Z.inj_pow.
    destruct s; cbn [cond_Zopp]; reflexivity.
Qed.

Lemma conv_one_step_valid conv_to ratio step_nr :
  dict_find CONV_TO conv_to = Some ratio ->
  conv_one_step conv_to step_nr
  = (x <- int_mul_float step_nr ratio ;; int_of_float x)%res.
Proof.
  intros Hf. unfold conv_one_step, dict_contains, dict_getitem. now rewrite Hf.
Qed.

Lemma CONV_TO_find conv_to ratio :
  In (conv_to, ratio) CONV_TO ->
  dict_find CONV_TO conv_to = Some ratio /\ is_finite ratio = true.
Proof.
  intros Hin. simpl in Hin.
  repeat (destruct Hin as [Hin|Hin]; [injection Hin as <- <-; split; reflexivity|]).
  contradiction.
Qed.

(** C6 (as the code has it).  For a direction with a ratio and any integer
    step count, [conv_one_step] either returns the double-precision product
    of the step count (converted to a double) and the ratio, truncated
    towards zero, or raises [OverflowError]; it raises only when that
    conversion or product leaves the range of finite doubles.  For 'fwd' and
    100 the product is 219.51..., and the result is 219, not the nearest
    integer 220.  For a direction without a ratio it raises [ValueError]
    with a message that lists the four directions that have one. *)
Theorem conv_one_step_truncates :
  (forall conv_to ratio step_nr,
     In (conv_to, ratio) CONV_TO ->
     (exists n, float_of_int step_nr = Ok n /\
                is_finite (SFmul b64_prec b64_emax n ratio) = true /\
                conv_one_step conv_to step_nr
                = Ok (truncation (SF2Q (SFmul b64_prec b64_emax n ratio))))
     \/
     ((forall n, float_of_int step_nr = Ok n ->
                 is_finite (SFmul b64_prec b64_emax n ratio) = false) /\
      exists msg, conv_one_step conv_to step_nr = Raise (OverflowError msg))) /\
  (dict_find CONV_TO "fwd" = Some (float_div (float_lit 450) (float_lit 205)) /\
   conv_one_step "fwd" 100 = Ok 219 /\
   nearest (SF2Q (SFmul b64_prec b64_emax (float_lit 100) RATIO_BACK_TO_FWD)) = 220) /\
  (forall conv_to step_nr,
     ~ In conv_to (dict_keys CONV_TO) ->
     conv_one_step conv_to step_nr = Raise (ValueError (conv_to_msg conv_to))).
Proof.
  split; [|split].
  - intros conv_to ratio step_nr Hin.
    destruct (CONV_TO_find _ _ Hin) as [Hfind Hratio].
    rewrite (conv_one_step_valid _ _ step_nr Hfind).
    unfold int_mul_float.
    destruct (float_of_int step_nr) as [n|e] eqn:En.
    + cbn [rbind].
      destruct (SFmul_cases n ratio (float_of_int_finite _ _ En) Hratio) as [Hf|[s Hi]].
      * left. exists n. repeat split; [exact Hf|].
        now apply int_of_float_truncation.
      * right. unfold b64_prec, b64_emax in *. split.
        -- intros n' [= <-]. now rewrite Hi.
        -- rewrite Hi. cbn. eauto.
    + right. split; [discriminate|]. cbn [rbind].
      unfold float_of_int in En.
      destruct (binary_normalize b64_prec b64_emax step_nr 0 false);
        try discriminate En. injection En as <-. eauto.
  - repeat split; vm_compute; reflexivity.
  - intros conv_to step_nr Hn. unfold conv_one_step.
    destruct (dict_contains CONV_TO conv_to) eqn:E.
    + apply dict_contains_In in E. contradiction.
    + reflexivity.
Qed.

Lemma conv_one_step_truncates_witness :
  In ("fwd", RATIO_BACK_TO_FWD) CONV_TO /\
  ~ In "up" (dict_keys CONV_TO) /\
  (conv_one_step "fwd" (-100) = Ok (-219) \/
   exists msg, conv_one_step "fwd" (-100) = Raise (OverflowError msg)) /\
  conv_one_step "up" 100
  = Raise (ValueError
             "conv_to: up is not a valid argument. Try instead: ['left', 'right', 'fwd', 'back']").
Proof.
  assert (Hin : In ("fwd", RATIO_BACK_TO_FWD) CONV_TO) by (simpl; tauto).
  assert (Hn : ~ In "up" (dict_keys CONV_TO)).
  { not_a_key. }
  destruct conv_one_step_truncates as (Hvalid & _ & Hinvalid).
  split; [exact Hin | split; [exact Hn | split]].
  - destruct (Hvalid "fwd" RATIO_BACK_TO_FWD (-100) Hin) as [(n & Hn' & _ & Hr)|[_ Hr]].
    + left. rewrite Hr. injection Hn' as <-. reflexivity.
    + right. exact Hr.
  - exact (Hinvalid "up" 100 Hn).
Defined.

(** C6, counterexample.  2^1024 is an integer step count, 'fwd' has a ratio,
    and [conv_one_step] returns nothing: the conversion of the step count to
    a float raises [OverflowError]; for 2^1023 the product overflows and
    [int()] raises. *)
Lemma conv_one_step_overflow :
  In "fwd" (dict_keys CONV_TO) /\
  conv_one_step "fwd" (2 ^ 1024)
  = Raise (OverflowError "int too large to convert to float") /\
  conv_one_step "fwd" (2 ^ 1023)
  = Raise (OverflowError "cannot convert float infinity to integer").
Proof. split; [simpl; tauto | split; vm_compute; reflexivity]. Qed.

(** ** The wiring resolver: errors and effects *)


Lemma forallb_false {A} (f : A -> bool) (l : list A) :
  forallb f l = false -> exists x, In x l /\ f x = false.
Proof.
  induction l as [|a l IH]; cbn; [discriminate|].
  destruct (f a) eqn:E; cbn.
  - intros Hl. destruct (IH Hl) as (x & Hin & Hx). eauto.
  - intros _. eauto.
Qed.


Lemma composed_preimage d tmp_ r :
  composed d [tmp_] r ->
  forall v, In v (dict_values r) ->
  exists w, In w (dict_values d) /\ dict_find tmp_ w = Some v.
Proof.
  induction 1 as [|kv kr d r [_ Hv] _ IH]; cbn [dict_values map In]; [tauto|].
  intros v [<-|Hin].
  - exists (snd kv). split; [now left|].
    cbn [chain_lookup] in Hv. now destruct (dict_find tmp_ (snd kv)).
  - destruct (IH v Hin) as (w & Hw & Hf). eauto.
Qed.

(** The loop either composes the whole chain or stops at the first table
    that lacks a value reached from the first table. *)
Lemma compress_loop_cases (ds : list pydict) :
  forall dct, wf_dict dct ->
  (exists r, compress_loop dct ds = Ok r /\ composed dct ds r) \/
  (compress_loop dct ds = Raise (KeyError (VStr KEYS_NOT_CONSISTENT)) /\
   exists v, In v (dict_values dct) /\ chain_lookup ds v = None).
Proof.
  induction ds as [|tmp_ ds IH]; intros dct Hwf.
  - left. exists dct. split; [reflexivity | apply composed_nil].
  - cbn [compress_loop].
    destruct (forallb (fun val => dict_contains tmp_ val) (dict_values dct)) eqn:Hall;
      cbn [negb].
    + assert (Hsub : forall v, In v (dict_values dct) -> In v (dict_keys tmp_)).
      { intros v Hv. apply dict_contains_In.
        now apply (proj1 (forallb_forall _ _) Hall). }
      destruct (compose_step_ok dct tmp_ Hwf Hsub) as (r1 & Hstep & Hc1).
      rewrite Hstep. cbn [rbind].
      assert (Hwf1 : wf_dict r1).
      { unfold wf_dict. rewrite (composed_keys _ _ _ Hc1). exact Hwf. }
      destruct (IH r1 Hwf1) as [(r & Hr & Hc)|(Hr & v & Hv & Hnone)].
      * left. exists r. split; [exact Hr | eapply composed_cons; eassumption].
      * right. split; [exact Hr|].
        destruct (composed_preimage _ _ _ Hc1 v Hv) as (w & Hw & Hf).
        exists w. split; [exact Hw|]. cbn [chain_lookup]. now rewrite Hf.
    + right. split; [reflexivity|].
      destruct (forallb_false _ _ Hall) as (v & Hv & Hc).
      exists v. split; [exact Hv|]. cbn [chain_lookup].
      unfold dict_contains in Hc. now destruct (dict_find tmp_ v).
Qed.










(* ====================================================================== *)
(** * Further properties *)
(* ====================================================================== *)

(** ** [compress_dict]: staging, lookups, few arguments *)

Lemma compress_loop_app (ds1 ds2 : list pydict) :
  forall d, compress_loop d (ds1 ++ ds2)
            = (r <- compress_loop d ds1 ;; compress_loop r ds2)%res.
Proof.
  induction ds1 as [|tmp_ ds1 IH]; intros d; [reflexivity|].
  cbn [app compress_loop].
  destruct (negb (forallb (fun val => dict_contains tmp_ val) (dict_values d)));
    [reflexivity|].
  destruct (compose_step d tmp_) as [d'|e]; cbn [rbind]; [apply IH | reflexivity].
Qed.

(** X1. Resolving a chain in two stages gives what resolving it at once
    gives, result or exception: [compress_dict(d1, *ds1, *ds2)] is
    [compress_dict(compress_dict(d1, *ds1), *ds2)]. *)
Theorem compress_dict_staged (d1 : pydict) (ds1 ds2 : list pydict) :
  compress_dict (map PDict (d1 :: ds1 ++ ds2))
  = (r <- compress_dict (map PDict (d1 :: ds1)) ;;
     compress_dict (map PDict (r :: ds2)))%res.
Proof.
  unfold compress_dict. rewrite !check_dicts_all. cbn [rbind].
  rewrite compress_loop_app.
  destruct (compress_loop d1 ds1) as [r|e]; cbn [rbind]; [|reflexivity].
  now rewrite check_dicts_all.
Qed.

Lemma composed_find d ds r :
  composed d ds r ->
  forall k, dict_find r k
            = match dict_find d k with
              | Some v => chain_lookup ds v
              | None => None
              end.
Proof.
  induction 1 as [|[k1 v1] [k2 v2] d r [Hk Hv] _ IH]; intros k; [reflexivity|].
  cbn [fst snd] in Hk, Hv. subst k2. cbn [dict_find].
  destruct (key_eqb k k1); [now rewrite Hv | apply IH].
Qed.

(** X2. When [compress_dict] returns, the result has the keys of the first
    dict, in its order and without duplicates, and looking a key up in the
    result is looking it up in the first dict and following the value
    through all the later dicts. *)
Theorem compress_dict_lookup (d1 : pydict) (ds : list pydict) (r : pydict) :
  wf_dict d1 ->
  compress_dict (map PDict (d1 :: ds)) = Ok r ->
  dict_keys r = dict_keys d1 /\
  wf_dict r /\
  forall k, dict_find r k
            = match dict_find d1 k with
              | Some v => chain_lookup ds v
              | None => None
              end.
Proof.
  intros Hwf Hr. unfold compress_dict in Hr. rewrite check_dicts_all in Hr.
  cbn [rbind] in Hr.
  destruct (compress_loop_cases ds d1 Hwf) as [(r' & Hr' & Hc)|(He & _)];
    [|congruence].
  assert (r' = r) by congruence. subst r'.
  pose proof (composed_keys _ _ _ Hc) as Hk.
  split; [exact Hk | split; [|now apply composed_find]].
  unfold wf_dict. now rewrite Hk.
Qed.

Lemma compress_dict_lookup_witness :
  wf_dict CONTROLLER_PIN_CONFIG /\
  exists r,
    compile_wiring_dict = Ok r /\
    dict_find r (VStr "LED_single") = Some (VInt 6) /\
    dict_find r (VStr "FIO0") = None.
Proof.
  assert (Hwf : wf_dict CONTROLLER_PIN_CONFIG).
  { unfold wf_dict. cbn. repeat constructor; cbn; intuition discriminate. }
  split; [exact Hwf|].
  exists (pin_dct sm).
  assert (Hr : compress_dict
                 (map PDict (CONTROLLER_PIN_CONFIG
                             :: [DSUB9_PIN_CONFIG; U3_WIRING; U3_PIN_CONFIG]))
               = Ok (pin_dct sm)) by reflexivity.
  destruct (compress_dict_lookup _ _ _ Hwf Hr) as (_ & _ & Hfind).
  split; [reflexivity | split; rewrite Hfind; reflexivity].
Defined.

Lemma compress_loop_ref_allocates (refs : list nat) :
  forall dct h a h',
  compress_loop_ref dct refs h = (Ok a, h') ->
  List.length h' = (List.length h + List.length refs)%nat /\
  (refs = [] -> a = dct) /\
  (refs <> [] -> a = (List.length h' - 1)%nat).
Proof.
  induction refs as [|tmp_ refs IH]; intros dct h a h' Hrun.
  - cbn in Hrun. injection Hrun as <- <-.
    split; [cbn; lia | split; [reflexivity | congruence]].
  - cbn [compress_loop_ref] in Hrun.
    destruct (deref h dct) as [[v|l|d]|]; try discriminate Hrun.
    destruct (deref h tmp_) as [[v|l|t]|]; try discriminate Hrun.
    destruct (negb (forallb (fun val => dict_contains t val) (dict_values d)));
      [discriminate Hrun|].
    destruct (compose_step d t) as [d'|e]; [|discriminate Hrun].
    cbn [alloc] in Hrun. apply IH in Hrun. destruct Hrun as (Hlen & Hnil & Hcons).
    rewrite length_app in Hlen. cbn [List.length] in Hlen.
    split; [cbn [List.length]; lia | split; [discriminate|]].
    intros _. destruct refs as [|r refs'].
    + rewrite (Hnil eq_refl). cbn [List.length] in Hlen. lia.
    + apply Hcons. discriminate.
Qed.

(** X3. With no argument [compress_dict] raises [IndexError].  With a single
    dict it returns that very object -- the same address, nothing
    allocated -- so the result aliases the argument.  With two or more
    arguments a successful call allocates one dict per composition step and
    returns the last one, an address that was not in the heap before: the
    result shares no identity with any argument. *)
Theorem compress_dict_few_arguments (h : heap) :
  compress_dict [] = Raise (IndexError "pop from empty list") /\
  compress_dict_ref [] h = (Raise (IndexError "pop from empty list"), h) /\
  (forall d, compress_dict [PDict d] = Ok d) /\
  (forall r d, deref h r = Some (PDict d) -> compress_dict_ref [r] h = (Ok r, h)) /\
  (forall r1 r2 refs a h',
     compress_dict_ref (r1 :: r2 :: refs) h = (Ok a, h') ->
     (List.length h <= a)%nat /\ deref h a = None /\
     List.length h' = (List.length h + S (List.length refs))%nat).
Proof.
  split; [reflexivity | split; [reflexivity | split; [reflexivity | split]]].
  - intros r d Hr. unfold compress_dict_ref. cbn [check_dicts_ref]. now rewrite Hr.
  - intros r1 r2 refs a h' Hrun. unfold compress_dict_ref in Hrun.
    destruct (check_dicts_ref h (r1 :: r2 :: refs)); [|discriminate Hrun].
    apply compress_loop_ref_allocates in Hrun. destruct Hrun as (Hlen & _ & Ha).
    cbn [List.length] in Hlen. specialize (Ha ltac:(discriminate)).
    split; [lia | split; [|lia]].
    unfold deref. apply nth_error_None. lia.
Qed.

Lemma compress_dict_few_arguments_witness :
  deref [PDict [(VStr "A", VStr "X")]; PDict [(VStr "X", VStr "C")]] 0
  = Some (PDict [(VStr "A", VStr "X")]) /\
  compress_dict_ref [0%nat] [PDict [(VStr "A", VStr "X")]; PDict [(VStr "X", VStr "C")]]
  = (Ok 0%nat, [PDict [(VStr "A", VStr "X")]; PDict [(VStr "X", VStr "C")]]) /\
  compress_dict_ref [0%nat; 1%nat]
    [PDict [(VStr "A", VStr "X")]; PDict [(VStr "X", VStr "C")]]
  = (Ok 2%nat, [PDict [(VStr "A", VStr "X")]; PDict [(VStr "X", VStr "C")];
                PDict [(VStr "A", VStr "C")]]) /\
  (2 <= 2)%nat.
Proof.
  assert (Hd : deref [PDict [(VStr "A", VStr "X")]; PDict [(VStr "X", VStr "C")]] 0
               = Some (PDict [(VStr "A", VStr "X")])) by reflexivity.
  assert (Hrun : compress_dict_ref [0%nat; 1%nat]
                   [PDict [(VStr "A", VStr "X")]; PDict [(VStr "X", VStr "C")]]
                 = (Ok 2%nat, [PDict [(VStr "A", VStr "X")]; PDict [(VStr "X", VStr "C")];
                               PDict [(VStr "A", VStr "C")]])) by reflexivity.
  destruct (compress_dict_few_arguments
              [PDict [(VStr "A", VStr "X")]; PDict [(VStr "X", VStr "C")]])
    as (_ & _ & _ & Hone & Hmany).
  split; [exact Hd | split; [exact (Hone _ _ Hd) | split; [exact Hrun|]]].
  exact (proj1 (Hmany _ _ _ _ _ Hrun)).
Defined.

(** ** The direction encoding is injective *)



(** ** What the motor classes never do *)

Lemma only_patterns_ret {A} (a : A) : only_patterns (dret a).
Proof. intros u. exists []. cbn. now rewrite emits_nil. Qed.

Lemma only_patterns_raise {A} (e : exn) : only_patterns (@draise A e).
Proof. intros u. exists []. cbn. now rewrite emits_nil. Qed.

Lemma only_patterns_lift {A} (r : result A) : only_patterns (lift r).
Proof. intros u. exists []. cbn. now rewrite emits_nil. Qed.

Lemma only_patterns_bind {A B} (c : dev A) (f : A -> dev B) :
  only_patterns c -> (forall a, only_patterns (f a)) -> only_patterns (dbind c f).
Proof.
  intros Hc Hf u. unfold dbind. destruct (Hc u) as (evs & Hs & Hb).
  destruct (c u) as [[a|e] u']; cbn [snd] in Hs; subst u'.
  - destruct (Hf a (emits evs u)) as (evs' & Hs' & Hb').
    exists (evs ++ evs')%list. rewrite Hs', emits_emits.
    split; [reflexivity | now apply Forall_app].
  - exists evs. split; [reflexivity | exact Hb].
Qed.

Lemma only_patterns_sleep (secs : Q) : only_patterns (time_sleep secs).
Proof.
  intros u. unfold time_sleep. destruct (Qle_bool 0 secs) eqn:E.
  - exists [Sleep secs]. split; [reflexivity|]. constructor; [|constructor].
    now apply Qle_bool_iff.
  - exists []. cbn. now rewrite emits_nil.
Qed.

Lemma only_patterns__walk direction : only_patterns (_walk sm direction).
Proof.
  intros u. destruct (dict_find MOTOR_DIRECTIONS direction) as [bits|] eqn:E.
  - apply dict_find_Some_In in E. rewrite (_walk_valid _ _ _ E).
    exists [Feedback (commands_of bits)]. split; [reflexivity|].
    constructor; [|constructor]. now exists direction, bits.
  - apply dict_find_None in E. rewrite (_walk_invalid _ _ E).
    exists []. cbn. now rewrite emits_nil.
Qed.

Lemma only_patterns_walk direction (d : Q) : only_patterns (walk sm direction d).
Proof.
  unfold walk.
  apply only_patterns_bind; [apply only_patterns__walk | intros _].
  apply only_patterns_bind; [apply only_patterns__walk | intros _].
  apply only_patterns_bind; [apply only_patterns_sleep | intros _].
  apply only_patterns_bind; [apply only_patterns__walk | intros _].
  apply only_patterns_sleep.
Qed.

Lemma only_patterns_for_range (body : dev unit) (n : nat) :
  only_patterns body -> only_patterns (for_range n body).
Proof.
  intros Hb. induction n as [|n IH]; cbn [for_range].
  - apply only_patterns_ret.
  - apply only_patterns_bind; [exact Hb | intros _; exact IH].
Qed.

Lemma only_patterns_for_each {A} (l : list A) (body : A -> dev unit) :
  (forall a, only_patterns (body a)) -> only_patterns (for_each l body).
Proof.
  intros Hb. induction l as [|a l IH]; cbn [for_each].
  - apply only_patterns_ret.
  - apply only_patterns_bind; [apply Hb | intros _; exact IH].
Qed.

Lemma only_patterns_get_motor_setting : only_patterns (get_motor_setting sm).
Proof.
  intros u. rewrite get_motor_setting_eq. exists []. cbn. now rewrite emits_nil.
Qed.

Lemma only_patterns_walk_steps direction n_steps (d : Q) :
  only_patterns (walk_steps sm direction n_steps d).
Proof.
  unfold walk_steps.
  apply only_patterns_bind; [apply only_patterns_lift | intros n].
  apply only_patterns_bind; [apply only_patterns_get_motor_setting | intros setting].
  destruct (negb (String.eqb setting "single")); [apply only_patterns_raise|].
  apply only_patterns_for_range.
  apply only_patterns_bind; [apply only_patterns_walk | intros _; apply only_patterns_sleep].
Qed.

Lemma only_patterns_walk_bursts direction n_steps :
  only_patterns (walk_bursts sm direction n_steps).
Proof.
  unfold walk_bursts.
  apply only_patterns_bind; [apply only_patterns_lift | intros n].
  apply only_patterns_bind; [apply only_patterns_get_motor_setting | intros setting].
  destruct (negb (String.eqb setting "burst")); [apply only_patterns_raise|].
  apply only_patterns_for_range.
  apply only_patterns_bind; [apply only_patterns_walk | intros _; apply only_patterns_sleep].
Qed.

Lemma only_patterns_turn_around dir_change : only_patterns (turn_around asm dir_change).
Proof.
  unfold turn_around.
  apply only_patterns_bind; [apply only_patterns_lift | intros _].
  destruct (dict_find (turn_dct asm) dir_change); [|apply only_patterns_raise].
  apply only_patterns_for_each. intros a. apply only_patterns_walk_bursts.
Qed.

Lemma only_patterns_turn_around_from direction :
  only_patterns (turn_around_from asm direction).
Proof.
  unfold turn_around_from.
  apply only_patterns_bind; [apply only_patterns_lift | intros _].
  apply only_patterns_bind; [apply only_patterns_lift | intros dir_change].
  apply only_patterns_turn_around.
Qed.

Lemma last_written_commands_other bits io :
  ~ In io [0; 1; 2] -> last_written (commands_of bits) io = None.
Proof.
  intros Hio. cbn [In] in Hio.
  assert (H0 : (0 =? io) = false) by (apply Z.eqb_neq; tauto).
  assert (H1 : (1 =? io) = false) by (apply Z.eqb_neq; tauto).
  assert (H2 : (2 =? io) = false) by (apply Z.eqb_neq; tauto).
  unfold commands_of.
  destruct bits as [|b0 [|b1 [|b2 bits]]];
    cbn [last_written map combine IONumber State fst snd pyval_eqb];
    rewrite ?H0, ?H1, ?H2; reflexivity.
Qed.

Lemma last_written_benign_other evs io :
  Forall benign evs -> ~ In io [0; 1; 2] ->
  last_written (flat_map writes_of evs) io = None.
Proof.
  intros Hb Hio. induction Hb as [|ev evs Hev _ IH]; [reflexivity|].
  cbn [flat_map]. rewrite last_written_app, IH.
  destruct ev as [cmds|secs]; [|reflexivity].
  destruct Hev as (direction & bits & _ & ->). cbn [writes_of].
  now apply last_written_commands_other.
Qed.

Lemma output_state_emits evs u io :
  output_state (emits evs u) io
  = match last_written (flat_map writes_of evs) io with
    | Some st => Some st
    | None => output_state u io
    end.
Proof.
  unfold output_state, emits. cbn [log]. rewrite flat_map_app. apply last_written_app.
Qed.

Lemma only_patterns_confined {A} (c : dev A) : only_patterns c -> confined c.
Proof.
  intros Hc u. destruct (Hc u) as (evs & Hs & Hb). rewrite Hs.
  split; [reflexivity | split].
  - exists evs. split; [reflexivity | exact Hb].
  - intros io Hio. rewrite output_state_emits.
    now rewrite (last_written_benign_other _ _ Hb Hio).
Qed.

(** X5. Whatever the arguments and whatever the outcome, a call of [walk],
    [walk_steps], [walk_bursts], [turn_around] or [turn_around_from] leaves
    the input levels of the device alone, appends to its log only sleeps of
    non-negative length and batched writes that put the complete pattern of
    one of the seven directions on the three bit lines, and so never changes
    an output line other than 0, 1 and 2 (in particular none of the status
    lines 5, 6, 7). *)
Theorem motor_calls_confined :
  (forall direction d, confined (walk sm direction d)) /\
  (forall direction n_steps d, confined (walk_steps sm direction n_steps d)) /\
  (forall direction n_steps, confined (walk_bursts sm direction n_steps)) /\
  (forall dir_change, confined (turn_around asm dir_change)) /\
  (forall direction, confined (turn_around_from asm direction)).
Proof.
  repeat split; intros; apply only_patterns_confined;
    auto using only_patterns_walk, only_patterns_walk_steps, only_patterns_walk_bursts,
      only_patterns_turn_around, only_patterns_turn_around_from.
Qed.

Lemma motor_calls_confined_witness :
  ~ In 6 [0; 1; 2] /\
  output_state (snd (walk_steps sm "fwd" (PVal (VInt 3)) (1 # 100)
                       (device_with_low [LINE_SINGLE]))) 6
  = None.
Proof.
  assert (Hio : ~ In 6 [0; 1; 2]) by (cbn; lia).
  split; [exact Hio|].
  destruct motor_calls_confined as (_ & Hsteps & _).
  destruct (Hsteps "fwd" (PVal (VInt 3)) (1 # 100) (device_with_low [LINE_SINGLE]))
    as (_ & _ & Hout).
  rewrite (Hout 6 Hio). reflexivity.
Defined.

(** ** Where a pulse leaves the bit lines *)









(** ** Counted walks: bursts, and the order of the checks *)


(** X8. [walk_bursts] is gated on the burst mode as [walk_steps] is on the
    single mode: for a direction of the table and a count [n] >= 0, in burst
    mode the device receives exactly [n] pulses of the fixed burst duration
    0.15 s, each followed by the 0.01 s delay; in any other mode the call
    raises with the switch-to-burst message and the device is as before.
    The two gates exclude each other: in no state of the device are both
    counted walks admitted. *)
Theorem walk_bursts_gated direction bits (n : nat) (u : U3) :
  In (direction, bits) MOTOR_DIRECTIONS ->
  (fst (get_motor_setting sm u) = Ok "burst" ->
   walk_bursts sm direction (PVal (VInt (Z.of_nat n))) u
   = (Ok tt, emits (List.concat (repeat (pulse_and_delay bits (15 # 100)) n)) u)) /\
  (fst (get_motor_setting sm u) <> Ok "burst" ->
   walk_bursts sm direction (PVal (VInt (Z.of_nat n))) u
   = (Raise (StepperMotorException NEED_BURST), u)) /\
  (forall d,
     walk_steps sm direction (PVal (VInt (Z.of_nat n))) d u
     = (Raise (StepperMotorException NEED_SINGLE), u) \/
     walk_bursts sm direction (PVal (VInt (Z.of_nat n))) u
     = (Raise (StepperMotorException NEED_BURST), u)).
Proof.
  intros Hin. split; [|split].
  - intros Hmode. now apply walk_bursts_burst.
  - intros Hmode. rewrite walk_bursts_int. now rewrite (setting_neq _ _ Hmode).
  - intros d. rewrite walk_steps_int, walk_bursts_int.
    destruct (String.eqb_spec (last_low_setting u) "single") as [Hs|Hs]; cbn [negb].
    + right. rewrite Hs. reflexivity.
    + now left.
Qed.

Lemma walk_bursts_gated_witness :
  In ("up", [0; 1; 1]) MOTOR_DIRECTIONS /\
  fst (get_motor_setting sm (device_with_low [LINE_BURST])) = Ok "burst" /\
  fst (get_motor_setting sm (device_with_low [LINE_SINGLE])) <> Ok "burst" /\
  walk_bursts sm "up" (PVal (VInt 2)) (device_with_low [LINE_BURST])
  = (Ok tt,
     emits (List.concat (repeat (pulse_and_delay [0; 1; 1] (15 # 100)) 2))
           (device_with_low [LINE_BURST])) /\
  walk_bursts sm "up" (PVal (VInt 2)) (device_with_low [LINE_SINGLE])
  = (Raise (StepperMotorException NEED_BURST), device_with_low [LINE_SINGLE]).
Proof.
  assert (Hin : In ("up", [0; 1; 1]) MOTOR_DIRECTIONS) by (simpl; tauto).
  assert (Hb : fst (get_motor_setting sm (device_with_low [LINE_BURST])) = Ok "burst")
    by reflexivity.
  assert (Hs : fst (get_motor_setting sm (device_with_low [LINE_SINGLE])) <> Ok "burst")
    by discriminate.
  split; [exact Hin | split; [exact Hb | split; [exact Hs | split]]].
  - exact (proj1 (walk_bursts_gated "up" _ 2 (device_with_low [LINE_BURST]) Hin) Hb).
  - exact (proj1 (proj2 (walk_bursts_gated "up" _ 2 (device_with_low [LINE_SINGLE]) Hin)) Hs).
Defined.



(** ** Turn-around sequences *)

Lemma setting_emits evs u : last_low_setting (emits evs u) = last_low_setting u.
Proof. reflexivity. Qed.

Lemma walk_bursts_entry (step_sequ : string * Z) (u : U3) :
  In (fst step_sequ) (dict_keys MOTOR_DIRECTIONS) ->
  walk_bursts sm (fst step_sequ) (PVal (VInt (snd step_sequ))) u
  = if negb (String.eqb (last_low_setting u) "burst")
    then (Raise (StepperMotorException NEED_BURST), u)
    else (Ok tt, emits (burst_events step_sequ) u).
Proof.
  intros Hdir. rewrite walk_bursts_int.
  destruct (negb (String.eqb (last_low_setting u) "burst")); [reflexivity|].
  unfold burst_events, bits_of.
  destruct (dict_find MOTOR_DIRECTIONS (fst step_sequ)) as [bits|] eqn:E.
  - apply dict_find_Some_In in E. apply for_range_emits. intros u'.
    apply pulse_body; [exact E | discriminate].
  - apply dict_find_None in E. contradiction.
Qed.

(** X10. Both configured turn-arounds behave alike.  For every entry of
    [TURN_AROUND_STEP_SEQUENCE], in burst mode [turn_around] succeeds and
    the device receives, pair after pair in the order of the entry, as many
    burst pulses of the pair's direction as the pair's count, and nothing
    else; in any other mode it raises the switch-to-burst error of the
    first [walk_bursts] and nothing is written. *)
Theorem turn_around_entries dir_change sequ (u : U3) :
  In (dir_change, sequ) TURN_AROUND_STEP_SEQUENCE ->
  (fst (get_motor_setting asm u) = Ok "burst" ->
   turn_around asm dir_change u = (Ok tt, emits (flat_map burst_events sequ) u)) /\
  (fst (get_motor_setting asm u) <> Ok "burst" ->
   turn_around asm dir_change u = (Raise (StepperMotorException NEED_BURST), u)).
Proof.
  intros Hin.
  assert (Hrun : turn_around asm dir_change u
                 = for_each sequ
                     (fun step_sequ =>
                        walk_bursts sm (fst step_sequ) (PVal (VInt (snd step_sequ)))) u
                 /\ Forall (fun step_sequ => In (fst step_sequ) (dict_keys MOTOR_DIRECTIONS))
                      sequ
                 /\ sequ <> []).
  { simpl in Hin. destruct Hin as [Hin|[Hin|[]]]; injection Hin as <- <-;
      (split; [reflexivity | split; [|discriminate]]);
      repeat constructor; cbn; tauto. }
  destruct Hrun as (-> & Hdirs & Hne).
  change (get_motor_setting asm u) with (get_motor_setting sm u).
  split; intros Hmode.
  - apply setting_eq in Hmode. clear Hne Hin.
    revert u Hmode. induction Hdirs as [|step_sequ sequ Hdir _ IH]; intros u Hmode.
    + cbn. now rewrite emits_nil.
    + cbn [for_each flat_map]. unfold dbind.
      rewrite (walk_bursts_entry _ _ Hdir), Hmode. cbn [negb].
      rewrite IH by (now rewrite setting_emits). now rewrite emits_emits.
  - apply setting_neq in Hmode. destruct Hdirs as [|step_sequ sequ Hdir _]; [congruence|].
    cbn [for_each]. unfold dbind.
    rewrite (walk_bursts_entry _ _ Hdir), Hmode. reflexivity.
Qed.

Lemma turn_around_entries_witness :
  In ("back_to_fwd", [("back", 50); ("fwd", 110)]) TURN_AROUND_STEP_SEQUENCE /\
  fst (get_motor_setting asm (device_with_low [LINE_BURST])) = Ok "burst" /\
  fst (get_motor_setting asm (device_with_low [])) <> Ok "burst" /\
  turn_around asm "back_to_fwd" (device_with_low [LINE_BURST])
  = (Ok tt,
     emits (burst_events ("back", 50) ++ burst_events ("fwd", 110) ++ [])
           (device_with_low [LINE_BURST])) /\
  turn_around asm "back_to_fwd" (device_with_low [])
  = (Raise (StepperMotorException NEED_BURST), device_with_low []).
Proof.
  assert (Hin : In ("back_to_fwd", [("back", 50); ("fwd", 110)]) TURN_AROUND_STEP_SEQUENCE)
    by (simpl; tauto).
  assert (Hb : fst (get_motor_setting asm (device_with_low [LINE_BURST])) = Ok "burst")
    by reflexivity.
  assert (Ha : fst (get_motor_setting asm (device_with_low [])) <> Ok "burst")
    by discriminate.
  split; [exact Hin | split; [exact Hb | split; [exact Ha | split]]].
  - exact (proj1 (turn_around_entries _ _ (device_with_low [LINE_BURST]) Hin) Hb).
  - exact (proj2 (turn_around_entries _ _ (device_with_low []) Hin) Ha).
Defined.

(** X11. What [turn_around_from] does for each direction.  'fwd' and 'back'
    are the turn-arounds 'fwd_to_back' and 'back_to_fwd'.  'left' and
    'right' pass the direction check and have a key in [TURN_AROUND_FROM],
    but their keys 'left_to_right' and 'right_to_left' have no entry in the
    turn-sequence table: the call raises [AdvancedStepperMotorException]
    and nothing is written.  A name that is not a motor direction raises
    [StepperMotorException] and nothing is written. *)
Theorem turn_around_from_dispatch (u : U3) :
  turn_around_from asm "fwd" u = turn_around asm "fwd_to_back" u /\
  turn_around_from asm "back" u = turn_around asm "back_to_fwd" u /\
  turn_around_from asm "left" u
  = (Raise (AdvancedStepperMotorException (invalid_direction_change_msg "left_to_right")),
     u) /\
  turn_around_from asm "right" u
  = (Raise (AdvancedStepperMotorException (invalid_direction_change_msg "right_to_left")),
     u) /\
  (forall direction,
     ~ In direction (dict_keys MOTOR_DIRECTIONS) ->
     turn_around_from asm direction u
     = (Raise (StepperMotorException (invalid_direction_msg direction)), u)).
Proof.
  split; [reflexivity | split; [reflexivity | split; [reflexivity | split;
    [reflexivity|]]]].
  intros direction Hn. unfold turn_around_from, dbind, lift.
  change (base asm) with sm. now rewrite (_check_motor_direction_invalid _ Hn).
Qed.

Lemma turn_around_from_dispatch_witness :
  ~ In "diagonal" (dict_keys MOTOR_DIRECTIONS) /\
  turn_around_from asm "diagonal" (device_with_low [LINE_BURST])
  = (Raise (StepperMotorException (invalid_direction_msg "diagonal")),
     device_with_low [LINE_BURST]).
Proof.
  assert (Hn : ~ In "diagonal" (dict_keys MOTOR_DIRECTIONS)) by not_a_key.
  split; [exact Hn|].
  destruct (turn_around_from_dispatch (device_with_low [LINE_BURST]))
    as (_ & _ & _ & _ & Hother).
  exact (Hother _ Hn).
Defined.

(** ** The unit converter is odd *)

Section Binary64Signs.
Let prec := b64_prec.
Let emax := b64_emax.

Lemma binary_round_aux_opp s m e l :
  binary_round_aux prec emax (negb s) m e l
  = SFopp (binary_round_aux prec emax s m e l).
Proof.
  unfold binary_round_aux.
  destruct (shr_fexp prec emax m e l) as [mrs' e'].
  destruct (shr_fexp prec emax (round_nearest_even (shr_m mrs') (loc_of_shr_record mrs'))
              e' loc_Exact) as [mrs'' e''].
  destruct (shr_m mrs'') as [|p|p]; [reflexivity | | reflexivity].
  destruct (e'' <=? emax - prec); reflexivity.
Qed.

Lemma SFmul_opp_l x y : SFmul prec emax (SFopp x) y = SFopp (SFmul prec emax x y).
Proof.
  destruct x as [sx|sx| |sx mx ex], y as [sy|sy| |sy my ey]; cbn [SFmul SFopp];
    rewrite <- ?negb_xorb_l; try reflexivity.
  apply binary_round_aux_opp.
Qed.

Lemma binary_normalize_opp (p : positive) :
  binary_normalize prec emax (Z.neg p) 0 false
  = SFopp (binary_normalize prec emax (Z.pos p) 0 false).
Proof.
  unfold binary_normalize, binary_round.
  destruct (shl_align p 0 (fexp prec emax (Z.pos (digits2_pos p) + 0))) as [mz ez].
  apply (binary_round_aux_opp false).
Qed.
End Binary64Signs.

Lemma int_of_float_opp x :
  int_of_float (SFopp x)
  = match int_of_float x with
    | Ok r => Ok (- r)
    | Raise e => Raise e
    end.
Proof.
  destruct x as [s|s| |s m e]; cbn [int_of_float SFopp]; try reflexivity.
  f_equal. destruct s; cbn [negb cond_Zopp]; lia.
Qed.

Lemma int_mul_float_opp (p : positive) ratio :
  int_mul_float (Z.neg p) ratio
  = match int_mul_float (Z.pos p) ratio with
    | Ok x => Ok (SFopp x)
    | Raise e => Raise e
    end.
Proof.
  unfold int_mul_float, float_of_int. rewrite binary_normalize_opp.
  destruct (binary_normalize b64_prec b64_emax (Z.pos p) 0 false);
    cbn [SFopp rbind]; try reflexivity; now rewrite <- SFmul_opp_l.
Qed.

Lemma convert_opp (step_nr : Z) ratio :
  (x <- int_mul_float (- step_nr) ratio ;; int_of_float x)%res
  = match (x <- int_mul_float step_nr ratio ;; int_of_float x)%res with
    | Ok r => Ok (- r)
    | Raise e => Raise e
    end.
Proof.
  destruct step_nr as [|p|p]; cbn [Z.opp].
  - destruct (x <- int_mul_float 0 ratio;; int_of_float x)%res as [r|e] eqn:E;
      [|reflexivity].
    f_equal. unfold int_mul_float in E. cbn in E.
    destruct ratio as [s|s| |s m e]; cbn in E; try discriminate E;
      injection E as <-; reflexivity.
  - rewrite int_mul_float_opp.
    destruct (int_mul_float (Z.pos p) ratio) as [x|e]; cbn [rbind]; [|reflexivity].
    apply int_of_float_opp.
  - rewrite (int_mul_float_opp p).
    destruct (int_mul_float (Z.pos p) ratio) as [x|e]; cbn [rbind]; [|reflexivity].
    rewrite int_of_float_opp.
    destruct (int_of_float x) as [r|e]; [|reflexivity]. now rewrite Z.opp_involutive.
Qed.

(** X12. [conv_one_step] is odd in the step count: converting [-n] raises
    what converting [n] raises, and otherwise returns the negated result.
    The truncation is towards zero on both sides, so a count and its
    opposite convert to opposite counts (with floor they would not). *)
Theorem conv_one_step_odd (conv_to : string) (step_nr : Z) :
  conv_one_step conv_to (- step_nr)
  = match conv_one_step conv_to step_nr with
    | Ok r => Ok (- r)
    | Raise e => Raise e
    end.
Proof.
  unfold conv_one_step.
  destruct (negb (dict_contains CONV_TO conv_to)); [reflexivity|].
  destruct (dict_getitem CONV_TO conv_to) as [ratio|e]; cbn [rbind]; [|reflexivity].
  apply convert_opp.
Qed.

(** ** The power supply *)

Module PowerSupplyFacts.
Import de_power_supply.





Lemma find_In {V} (t : dict string V) k v : wf_dict t -> In (k, v) t -> dict_find t k = Some v.
Proof.
  unfold wf_dict. induction t as [|[k' v'] t IH]; cbn; [tauto|].
  intros Hnd [Heq|Hin].
  - injection Heq as -> ->. now rewrite String.eqb_refl.
  - inversion Hnd as [|? ? Hk Hnd']; subst.
    destruct (String.eqb_spec k k') as [->|_]; [|auto].
    exfalso. apply Hk. change k' with (fst (k', v)). now apply in_map.
Qed.

Lemma wf_U3_PIN_CONFIG : wf_dict U3_PIN_CONFIG.
Proof. unfold wf_dict. cbn. repeat constructor; cbn; intuition discriminate. Qed.

Lemma wf_U3_DAC_REGISTER : wf_dict U3_DAC_REGISTER.
Proof. unfold wf_dict. cbn. repeat constructor; cbn; intuition discriminate. Qed.

(** X14. Which channel each method touches.  [get_voltage] and
    [get_current] return, unscaled, the voltage that [getAIN] reads on
    channel 0 and channel 1 (against negative channel 31), whatever the
    class of the supply; they send no other request.  [_get_ai_value] reads
    the channel of a terminal label of [U3_PIN_CONFIG] and raises
    [KeyError] for any other name, and [_set_ao_value] writes the register
    of a DAC name of [U3_DAC_REGISTER] and raises [KeyError] for any other
    name; a call that raises sends nothing. *)
Theorem power_supply_channels (c : attrs) (d : handle) :
  get_voltage (supply c) d = (Return (ain d 0), ask (GetAIN 0 31) d) /\
  get_current (supply c) d = (Return (ain d 1), ask (GetAIN 1 31) d) /\
  (forall ai_channel n,
     In (ai_channel, n) U3_PIN_CONFIG ->
     _get_ai_value (supply c) ai_channel d = (Return (ain d n), ask (GetAIN n 31) d)) /\
  (forall ai_channel,
     ~ In ai_channel (dict_keys U3_PIN_CONFIG) ->
     _get_ai_value (supply c) ai_channel d = (Throw (Std (KeyError (VStr ai_channel))), d)) /\
  (forall dac_channel reg val,
     In (dac_channel, reg) U3_DAC_REGISTER ->
     _set_ao_value (supply c) dac_channel val d
     = (Return tt, ask (WriteRegister reg val) d)) /\
  (forall dac_channel val,
     ~ In dac_channel (dict_keys U3_DAC_REGISTER) ->
     _set_ao_value (supply c) dac_channel val d
     = (Throw (Std (KeyError (VStr dac_channel))), d)).
Proof.
  split; [reflexivity | split; [reflexivity | split; [|split; [|split]]]].
  - intros ch n Hin. unfold _get_ai_value, ibind, ilift, dict_getitem. cbn [u3_pin_config supply].
    now rewrite (find_In _ _ _ wf_U3_PIN_CONFIG Hin).
  - intros ch Hn. unfold _get_ai_value, ibind, ilift, dict_getitem. cbn [u3_pin_config supply].
    apply dict_find_None in Hn. now rewrite Hn.
  - intros ch reg val Hin. unfold _set_ao_value, ibind, ilift, dict_getitem.
    cbn [u3_dac_reg supply]. now rewrite (find_In _ _ _ wf_U3_DAC_REGISTER Hin).
  - intros ch val Hn. unfold _set_ao_value, ibind, ilift, dict_getitem.
    cbn [u3_dac_reg supply]. apply dict_find_None in Hn. now rewrite Hn.
Qed.

Lemma power_supply_channels_witness :
  In ("FIO5", 5) U3_PIN_CONFIG /\
  ~ In "DAC0" (dict_keys U3_PIN_CONFIG) /\
  In ("DAC1", 5002) U3_DAC_REGISTER /\
  ~ In "FIO0" (dict_keys U3_DAC_REGISTER) /\
  fst (_get_ai_value (supply ES03010) "DAC0"
         {| ain := fun _ => S754_zero false; requests := [] |})
  = Throw (Std (KeyError (VStr "DAC0"))) /\
  fst (_set_ao_value (supply ES03010) "FIO0" (NInt 1)
         {| ain := fun _ => S754_zero false; requests := [] |})
  = Throw (Std (KeyError (VStr "FIO0"))) /\
  requests (snd (_get_ai_value (supply ES03010) "FIO5"
                   {| ain := fun _ => S754_zero false; requests := [] |}))
  = [GetAIN 5 31] /\
  requests (snd (_set_ao_value (supply ES03010) "DAC1" (NInt 1)
                   {| ain := fun _ => S754_zero false; requests := [] |}))
  = [WriteRegister 5002 (NInt 1)].
Proof.
  assert (H1 : In ("FIO5", 5) U3_PIN_CONFIG) by (cbn; tauto).
  assert (H2 : ~ In "DAC0" (dict_keys U3_PIN_CONFIG)) by not_a_key.
  assert (H3 : In ("DAC1", 5002) U3_DAC_REGISTER) by (cbn; tauto).
  assert (H4 : ~ In "FIO0" (dict_keys U3_DAC_REGISTER)) by not_a_key.
  destruct (power_supply_channels ES03010
              {| ain := fun _ => S754_zero false; requests := [] |})
    as (_ & _ & Hai & Hai' & Hao & Hao').
  split; [exact H1 | split; [exact H2 | split; [exact H3 | split; [exact H4|]]]].
  split; [now rewrite (Hai' _ H2)|].
  split; [now rewrite (Hao' _ (NInt 1) H4)|].
  split; [now rewrite (Hai _ _ H1) | now rewrite (Hao _ _ (NInt 1) H3)].
Defined.

Lemma binary_round_aux_sign s m e l :
  0 <= m -> float_sign (binary_round_aux b64_prec b64_emax s m e l) = Some s.
Proof.
  intros Hm. unfold binary_round_aux.
  pose proof (shr_fexp_nonneg m e l Hm) as H1.
  destruct (shr_fexp b64_prec b64_emax m e l) as [mrs' e']. cbn [fst] in H1.
  pose proof (shr_fexp_nonneg _ e' loc_Exact
                (round_nearest_even_nonneg _ (loc_of_shr_record mrs') H1)) as H2.
  destruct (shr_fexp b64_prec b64_emax
              (round_nearest_even (shr_m mrs') (loc_of_shr_record mrs')) e' loc_Exact)
    as [mrs'' e'']. cbn [fst] in H2.
  destruct (shr_m mrs'') as [|p|p]; [reflexivity | | lia].
  destruct (e'' <=? b64_emax - b64_prec); reflexivity.
Qed.

Lemma SFdiv_core_nonneg (m1 m2 : positive) (e1 e2 : Z) :
  0 <= fst (fst (SFdiv_core_binary b64_prec b64_emax (Z.pos m1) e1 (Z.pos m2) e2)).
Proof.
  unfold SFdiv_core_binary.
  set (e' := Z.min _ _). set (m' := match e1 - e2 - e' with Z0 => _ | _ => _ end).
  assert (Hm' : 0 <= m').
  { unfold m'. destruct (e1 - e2 - e') as [|p|p]; [lia | | lia].
    apply Z.shiftl_nonneg. lia. }
  pose proof (Z.div_pos m' (Z.pos m2) Hm' ltac:(lia)) as Hq.
  unfold Z.div in Hq. destruct (Z.div_eucl m' (Z.pos m2)) as [q r]. exact Hq.
Qed.

Lemma SFdiv_sign x my ey :
  float_sign (SFdiv b64_prec b64_emax x (S754_finite false my ey)) = float_sign x.
Proof.
  destruct x as [sx|sx| |sx mx ex]; cbn [SFdiv float_sign]; rewrite ?xorb_false_r;
    try reflexivity.
  pose proof (SFdiv_core_nonneg mx my ex ey) as Hq.
  destruct (SFdiv_core_binary b64_prec b64_emax (Z.pos mx) ex (Z.pos my) ey) as [[mz ez] lz].
  now apply binary_round_aux_sign.
Qed.

Lemma SFmul_sign x my ey :
  float_sign (SFmul b64_prec b64_emax x (S754_finite false my ey)) = float_sign x.
Proof.
  destruct x as [sx|sx| |sx mx ex]; cbn [SFmul float_sign]; rewrite ?xorb_false_r;
    try reflexivity.
  apply binary_round_aux_sign. lia.
Qed.

Lemma float_of_int_sign z x : float_of_int z = Ok x -> float_sign x = Some (z <? 0).
Proof.
  unfold float_of_int, binary_normalize, binary_round.
  destruct z as [|p|p]; [intros [= <-]; reflexivity | |].
  all: match goal with
       | |- context [shl_align ?a ?b ?c] => destruct (shl_align a b c) as [mz ez]
       end.
  all: match goal with
       | |- context [binary_round_aux ?pr ?em ?s ?m ?e ?l] =>
           pose proof (binary_round_aux_sign s m e l ltac:(lia)) as Hs;
           destruct (binary_round_aux pr em s m e l); try discriminate;
           intros [= <-]; exact Hs
       end.
Qed.

Lemma float_of_int_error z e :
  float_of_int z = Raise e -> exists msg, e = OverflowError msg.
Proof.
  unfold float_of_int.
  destruct (binary_normalize b64_prec b64_emax z 0 false); try discriminate.
  intros [= <-]. eauto.
Qed.

Lemma to_float_sign n x : to_float n = Return x -> float_sign x = num_sign n.
Proof.
  destruct n as [z|y]; cbn [to_float num_sign].
  - destruct (float_of_int z) as [x'|e] eqn:E; cbn [of_result]; [|discriminate].
    intros [= <-]. now apply float_of_int_sign.
  - now intros [= <-].
Qed.

Lemma to_float_error n e :
  to_float n = Throw e -> (exists z, n = NInt z) /\ exists msg, e = Std (OverflowError msg).
Proof.
  destruct n as [z|y]; cbn [to_float]; [|discriminate].
  destruct (float_of_int z) as [x'|e'] eqn:E; cbn [of_result]; [discriminate|].
  intros [= <-]. split; [eauto|]. destruct (float_of_int_error _ _ E) as (msg & ->). eauto.
Qed.

Lemma int_truediv_sign (z : Z) (b : positive) :
  match int_truediv z (Z.pos b) with
  | Return q => float_sign q = Some (z <? 0)
  | Throw e => exists msg, e = Std (OverflowError msg)
  end.
Proof.
  unfold int_truediv. destruct z as [|p|p]; [reflexivity | |].
  all: cbn [Z.abs].
  all: pose proof (SFdiv_core_nonneg p b 0 0) as Hq.
  all: destruct (SFdiv_core_binary b64_prec b64_emax (Z.pos p) 0 (Z.pos b) 0)
         as [[mz ez] lz]; cbn [fst] in Hq.
  all: match goal with
       | |- context [binary_round_aux ?pr ?em ?s ?m ?e ?l] =>
           pose proof (binary_round_aux_sign s m e l Hq) as Hs;
           destruct (binary_round_aux pr em s m e l); try exact Hs; eauto
       end.
Qed.

Lemma positive_int (b : Z) : positive_number (NInt b) -> exists p, b = Z.pos p.
Proof.
  intros (m & e & Hf). pose proof (to_float_sign _ _ Hf) as Hs.
  cbn [float_sign num_sign] in Hs. destruct b as [|p|p]; [|eauto|discriminate Hs].
  discriminate Hf.
Qed.

(** The voltage of a current that has become the float [t] after the
    division. *)
Lemma scaled_sign (v : pynum) (t : spec_float) :
  positive_number v ->
  exists x,
    (t' <- py_mul (NFloat t) v ;;
     s <- py_add (NInt 1) CORRECTION_FACTOR ;;
     py_mul t' s)%out = Return (NFloat x) /\
    float_sign x = float_sign t.
Proof.
  intros (mv & ev & Hv).
  assert (Hmul : py_mul (NFloat t) v
                 = Return (NFloat (SFmul b64_prec b64_emax t (S754_finite false mv ev)))).
  { unfold py_mul. cbn [to_float obind]. rewrite Hv. destruct v; reflexivity. }
  rewrite Hmul. cbn [obind].
  assert (Hadd : exists m e, py_add (NInt 1) CORRECTION_FACTOR
                             = Return (NFloat (S754_finite false m e))).
  { vm_compute. eauto. }
  destruct Hadd as (m & e & ->). cbn [obind py_mul to_float].
  eexists. split; [reflexivity|]. now rewrite !SFmul_sign.
Qed.

(** X15. [set_current] programs DAC0 and keeps the sign.  For a supply
    class whose [I_OUTPUT_MAX] and [V_READOUT_MAX] are positive, and any
    current, integer or float, [set_current] either sends exactly one
    request, a write of a float to register 5000, whose sign is the sign of
    the current (a negative current gives a negative voltage, NaN gives
    NaN; nothing is clamped or refused), or -- only for an integer current,
    too large for a float -- raises [OverflowError] and sends nothing. *)
Theorem set_current_programs_dac0 (c : attrs) (current : pynum) (d : handle) :
  positive_number (I_OUTPUT_MAX c) ->
  positive_number (V_READOUT_MAX c) ->
  (exists v,
     set_current (supply c) current d
     = (Return tt, ask (WriteRegister 5000 (NFloat v)) d) /\
     float_sign v = num_sign current) \/
  ((exists z, current = NInt z) /\
   exists msg, set_current (supply c) current d = (Throw (Std (OverflowError msg)), d)).
Proof.
  intros HI HV.
  assert (Hset : set_current (supply c) current d
                 = match convert_to_readout_voltage c current CORRECTION_FACTOR with
                   | Return volt => (Return tt, ask (WriteRegister 5000 volt) d)
                   | Throw e => (Throw e, d)
                   end).
  { unfold set_current, ibind, ilift. cbn [supply cls pw_wiring of_result dict_getitem].
    cbn -[convert_to_readout_voltage CORRECTION_FACTOR].
    destruct (convert_to_readout_voltage c current CORRECTION_FACTOR); reflexivity. }
  rewrite Hset. unfold convert_to_readout_voltage.
  assert (Hdiv : (exists t, py_truediv current (I_OUTPUT_MAX c) = Return t /\
                            float_sign t = num_sign current) \/
                 ((exists z, current = NInt z) /\
                  exists msg, py_truediv current (I_OUTPUT_MAX c)
                              = Throw (Std (OverflowError msg)))).
  { destruct current as [z|x], (I_OUTPUT_MAX c) as [b|y] eqn:EI.
    - destruct (positive_int b HI) as (p & ->). cbn [py_truediv].
      pose proof (int_truediv_sign z p) as Hs.
      destruct (int_truediv z (Z.pos p)) as [q|e].
      + left. eauto.
      + right. destruct Hs as (msg & ->). split; eauto.
    - destruct HI as (m & e & Hy). cbn [to_float] in Hy. injection Hy as ->.
      cbn [py_truediv]. destruct (to_float (NInt z)) as [x|e'] eqn:Ez; cbn [obind to_float is_zero].
      + left. eexists. split; [reflexivity|]. rewrite SFdiv_sign.
        now apply (to_float_sign (NInt z)).
      + right. destruct (to_float_error _ _ Ez) as (_ & msg & ->). split; eauto.
    - destruct HI as (m & e & Hb). left. unfold py_truediv.
      change (to_float (NFloat x)) with (Return x). cbn [obind].
      rewrite Hb. cbn [obind is_zero]. eexists. split; [reflexivity|]. apply SFdiv_sign.
    - destruct HI as (m & e & Hy). cbn [to_float] in Hy. injection Hy as ->.
      left. cbn [py_truediv to_float obind is_zero]. eexists. split; [reflexivity|].
      apply SFdiv_sign. }
  destruct Hdiv as [(t & -> & Ht)|(Hz & msg & ->)]; cbn [obind].
  - left. destruct (scaled_sign (V_READOUT_MAX c) t HV) as (x & -> & Hx).
    exists x. split; [reflexivity | congruence].
  - right. split; [exact Hz | eauto].
Qed.

Lemma set_current_programs_dac0_witness :
  positive_number (I_OUTPUT_MAX ES03010) /\
  positive_number (V_READOUT_MAX ES03010) /\
  positive_number (I_OUTPUT_MAX DEPowerSupply) /\
  positive_number (V_READOUT_MAX DEPowerSupply) /\
  (exists v,
     requests (snd (set_current (supply ES03010) (NInt (-3))
                      {| ain := fun _ => S754_zero false; requests := [] |}))
     = [WriteRegister 5000 (NFloat v)] /\ float_sign v = Some true) /\
  (exists v,
     requests (snd (set_current (supply DEPowerSupply) (NFloat (float_lit 2))
                      {| ain := fun _ => S754_zero false; requests := [] |}))
     = [WriteRegister 5000 (NFloat v)] /\ float_sign v = Some false).
Proof.
  assert (H1 : positive_number (I_OUTPUT_MAX ES03010)) by (vm_compute; eauto).
  assert (H2 : positive_number (V_READOUT_MAX ES03010)) by (vm_compute; eauto).
  assert (H3 : positive_number (I_OUTPUT_MAX DEPowerSupply)) by (vm_compute; eauto).
  assert (H4 : positive_number (V_READOUT_MAX DEPowerSupply)) by (vm_compute; eauto).
  split; [exact H1 | split; [exact H2 | split; [exact H3 | split; [exact H4|]]]].
  split.
  - destruct (set_current_programs_dac0 ES03010 (NInt (-3))
                {| ain := fun _ => S754_zero false; requests := [] |} H1 H2)
      as [(v & E & Hs)|(_ & msg & E)].
    + exists v. rewrite E. split; [reflexivity | exact Hs].
    + vm_compute in E. discriminate E.
  - destruct (set_current_programs_dac0 DEPowerSupply (NFloat (float_lit 2))
                {| ain := fun _ => S754_zero false; requests := [] |} H3 H4)
      as [(v & E & Hs)|((z & Hz) & _)].
    + exists v. rewrite E. split; [reflexivity | exact Hs].
    + discriminate Hz.
Defined.

End PowerSupplyFacts.
